(** * Business/symptom import and query service

    A shallow embedding of [app/views.py], [app/models.py] and
    [app/database.py]: the CSV importer [import_business_symptoms] and the
    filtered read [read_business_symptoms], over the three tables declared
    in [models.py].

    Conventions.
    - A Python [str] is a [string] of bytes, its UTF-8 encoding (the upload
      is decoded as UTF-8 with [errors="ignore"], so every text the code
      sees has one); [Str.chars] cuts it back into its characters.
    - A Python exception is a value of [exn]; a computation that may raise
      returns [result A].
    - The SQLAlchemy session is state passed explicitly: [Session] holds the
      pending instances (Session.new) and the identity map of persistent
      instances, and [flush] turns them into INSERT and UPDATE statements.
    - The database is a [connection]: the state that is persisted and the
      view of the open transaction, which the statements write; COMMIT makes
      the view the persisted state, and closing the session drops it.
    - [datetime.utcnow] is an oracle [utcnow]: one reading of the clock for
      every column default and every [onupdate] the flush evaluates. *)

From stdpp Require Import gmap strings list fin_maps.
From Stdlib Require Import ZArith Ascii String.

Local Open Scope Z_scope.
Local Open Scope string_scope.

(** ** Exceptions and results *)

Inductive exn : Type :=
  | KeyError                      (* row["..."] on a missing column          *)
  | TypeError                     (* int(None)                               *)
  | ValueError                    (* int("abc")                              *)
  | AttributeError                (* None.strip()                            *)
  | IntegrityError                (* sqlalchemy.exc.IntegrityError at commit *)
  | DataError                     (* sqlalchemy.exc.DataError at commit      *)
  | HTTPException (status_code : Z) (detail : string).

Inductive result (A : Type) : Type :=
  | Ok (a : A)
  | Raise (e : exn).
Arguments Ok {A} a.
Arguments Raise {A} e.

#[global] Instance result_bind : MBind result := λ A B k r,
  match r with
  | Ok a => k a
  | Raise e => Raise e
  end.

(** A [for] loop whose body may raise: the first exception ends the loop. *)
Fixpoint for_each {S X : Type} (body : S → X → result S) (st : S) (xs : list X)
  : result S :=
  match xs with
  | [] => Ok st
  | x :: xs' => st' ← body st x; for_each body st' xs'
  end.

(** A run of statements on a state, each of which may be refused: the state
    reached, and the exception of the statement that was refused, if any.
    The statements before it have had their effect. *)
Fixpoint exec_each {S X : Type} (body : S → X → result S) (st : S) (xs : list X)
  : S * option exn :=
  match xs with
  | [] => (st, None)
  | x :: xs' =>
      match body st x with
      | Ok st' => exec_each body st' xs'
      | Raise e => (st, Some e)
      end
  end.

(** ** Unicode: the tables of the interpreter *)

Module Unicode.

(** The code points [str.isspace] accepts (Py_UNICODE_ISSPACE). *)
Definition whitespace : list N :=
  [
   0x9; 0xA; 0xB; 0xC; 0xD; 0x1C; 0x1D; 0x1E;
   0x1F; 0x20; 0x85; 0xA0; 0x1680; 0x2000; 0x2001; 0x2002;
   0x2003; 0x2004; 0x2005; 0x2006; 0x2007; 0x2008; 0x2009; 0x200A;
   0x2028; 0x2029; 0x202F; 0x205F; 0x3000
  ]%N.

(** The code point of the digit zero of every decimal script
    (Py_UNICODE_TODECIMAL, Unicode 15.0); the nine code points after a zero
    are the digits one to nine. *)
Definition decimal_zeros : list N :=
  [
   0x30; 0x660; 0x6F0; 0x7C0; 0x966; 0x9E6; 0xA66; 0xAE6;
   0xB66; 0xBE6; 0xC66; 0xCE6; 0xD66; 0xDE6; 0xE50; 0xED0;
   0xF20; 0x1040; 0x1090; 0x17E0; 0x1810; 0x1946; 0x19D0; 0x1A80;
   0x1A90; 0x1B50; 0x1BB0; 0x1C40; 0x1C50; 0xA620; 0xA8D0; 0xA900;
   0xA9D0; 0xA9F0; 0xAA50; 0xABF0; 0xFF10; 0x104A0; 0x10D30; 0x11066;
   0x110F0; 0x11136; 0x111D0; 0x112F0; 0x11450; 0x114D0; 0x11650; 0x116C0;
   0x11730; 0x118E0; 0x11950; 0x11C50; 0x11D50; 0x11DA0; 0x11F50; 0x16A60;
   0x16AC0; 0x16B50; 0x1D7CE; 0x1D7D8; 0x1D7E2; 0x1D7EC; 0x1D7F6; 0x1E140;
   0x1E2F0; 0x1E4F0; 0x1E950; 0x1FBF0
  ]%N.

(** The UTF-8 bytes of a code point. *)
Definition utf8 (cp : N) : string :=
  (if cp <? 0x80 then
     String (ascii_of_N cp) EmptyString
   else if cp <? 0x800 then
     String (ascii_of_N (0xC0 + cp / 64))
       (String (ascii_of_N (0x80 + cp mod 64)) EmptyString)
   else if cp <? 0x10000 then
     String (ascii_of_N (0xE0 + cp / 4096))
       (String (ascii_of_N (0x80 + (cp / 64) mod 64))
          (String (ascii_of_N (0x80 + cp mod 64)) EmptyString))
   else
     String (ascii_of_N (0xF0 + cp / 262144))
       (String (ascii_of_N (0x80 + (cp / 4096) mod 64))
          (String (ascii_of_N (0x80 + (cp / 64) mod 64))
             (String (ascii_of_N (0x80 + cp mod 64)) EmptyString))))%N.

End Unicode.

(** ** Strings: [str.strip], [str.lower], [int] *)

Module Str.

(** The number of bytes of the character a byte starts. *)
Definition width (b : ascii) : nat :=
  let n := N_of_ascii b in
  if (n <? 0xC0)%N then 1%nat
  else if (n <? 0xE0)%N then 2%nat
  else if (n <? 0xF0)%N then 3%nat
  else 4%nat.

(** The characters of a text, each as its UTF-8 bytes. *)
Fixpoint chars (s : string) : list string :=
  match s with
  | EmptyString => []
  | String b1 r1 =>
      match width b1, r1 with
      | 2%nat, String b2 r2 =>
          String b1 (String b2 EmptyString) :: chars r2
      | 3%nat, String b2 (String b3 r3) =>
          String b1 (String b2 (String b3 EmptyString)) :: chars r3
      | 4%nat, String b2 (String b3 (String b4 r4)) =>
          String b1 (String b2 (String b3 (String b4 EmptyString))) :: chars r4
      | _, _ => String b1 EmptyString :: chars r1
      end
  end.

Definition join (cs : list string) : string := foldr append EmptyString cs.

Definition among (table : list string) (c : string) : bool :=
  existsb (String.eqb c) table.

(** [c.isspace()] for one character. *)
Definition isspace (c : string) : bool :=
  among (Unicode.utf8 <$> Unicode.whitespace) c.

(** Drop the items at the front, and at the back, that satisfy [p]. *)
Fixpoint lstrip {X : Type} (p : X → bool) (l : list X) : list X :=
  match l with
  | x :: r => if p x then lstrip p r else l
  | [] => []
  end.

Fixpoint rstrip {X : Type} (p : X → bool) (l : list X) : list X :=
  match l with
  | x :: r =>
      match rstrip p r with
      | [] => if p x then [] else [x]
      | r' => x :: r'
      end
  | [] => []
  end.

(** [s.strip()] *)
Definition strip (s : string) : string :=
  join (rstrip isspace (lstrip isspace (chars s))).

(** [s.lower()] on the ASCII letters; the other bytes are kept. The one use
    of [lower] is the comparison with "true", "1" and "yes" in [truthy]: no
    character outside ASCII has a lower case made of their letters, so the
    comparison comes out as with the full [str.lower]. *)
Definition lower_char (c : ascii) : ascii :=
  let n := N_of_ascii c in
  if ((65 <=? n) && (n <=? 90))%N then ascii_of_N (n + 32) else c.

Fixpoint lower (s : string) : string :=
  match s with
  | String c r => String (lower_char c) (lower r)
  | EmptyString => EmptyString
  end.

(** The decimal digits, each with its value. *)
Definition decimals : list (string * Z) :=
  zero ← Unicode.decimal_zeros;
  d ← [0; 1; 2; 3; 4; 5; 6; 7; 8; 9]%N;
  [(Unicode.utf8 (zero + d), Z.of_N d)].

Definition decimal (c : string) : option Z :=
  snd <$> List.find (λ e, String.eqb c e.1) decimals.

(** The white space [int] skips around a number: [int] turns the spaces
    outside ASCII into " " and then skips TAB, LF, VT, FF, CR and " "
    (Py_ISSPACE); the separators 0x1c-0x1f, which [str.strip] removes, are
    not among them. *)
Definition int_space (c : string) : bool :=
  isspace c && negb (among (Unicode.utf8 <$> [0x1C; 0x1D; 0x1E; 0x1F]%N) c).

(** The most digits [int] reads (sys.int_info.default_max_str_digits). *)
Definition max_str_digits : nat := 4300.

(** The digits of a decimal literal; a single underscore is allowed
    between two digits. [after_digit] tells whether the previous character
    was a digit, [count] is the number of digits read. *)
Fixpoint digits (after_digit : bool) (count : nat) (acc : Z) (cs : list string)
  : option Z :=
  match cs with
  | [] => if (after_digit && (count <=? max_str_digits)%nat)%bool then Some acc else None
  | c :: r =>
      match decimal c with
      | Some d => digits true (S count) (10 * acc + d) r
      | None =>
          if (String.eqb c "_" && after_digit)%bool then digits false count acc r
          else None
      end
  end.

(** [int(s)] for a [str]: the white space around the number is skipped,
    then come an optional sign and a decimal literal up to the end. The
    result is unbounded, as in Python. *)
Definition int (s : string) : option Z :=
  match rstrip int_space (lstrip int_space (chars s)) with
  | String "-" EmptyString :: r => Z.opp <$> digits false 0 0 r
  | String "+" EmptyString :: r => digits false 0 0 r
  | cs => digits false 0 0 cs
  end.

End Str.


(** ** The schema of [models.py] *)

(** A row of [business_symptoms] without its key: the [diagnostic] column
    and the two time stamps. Times are integers (ticks of the clock behind
    [datetime.utcnow]). *)
Record BusinessSymptom : Type := {
  diagnostic : bool;
  created_at : Z;
  updated_at : Z;
}.

(** The persisted state: [businesses] maps [id] to [name], [symptoms] maps
    [code] to [name], [business_symptoms] maps the composite primary key
    [(business_id, symptom_code)] to the rest of the row. *)
Record DB : Type := {
  businesses : gmap Z string;
  symptoms : gmap string string;
  business_symptoms : gmap (Z * string) BusinessSymptom;
}.

Definition empty_db : DB :=
  {| businesses := ∅; symptoms := ∅; business_symptoms := ∅ |}.

(** ** [csv.DictReader]

    The input is the list of records [csv.reader] yields for the decoded
    text, one list of fields per line, when it reads the text to its end. A
    text on which the reader raises [csv.Error] (a field longer than the
    field size limit, for one) has no such list: it is outside the inputs of
    this development. The first record is the header; a record with no field
    (a blank line) is skipped; a record shorter than the header has its
    missing fields set to [None] (restval); the fields beyond the header go
    under the key [None] (restkey), which no column name reaches. *)

Module Csv.

Abbreviation Row := (gmap string (option string)).

(** [dict(zip(fieldnames, row))], then [restval] for the names left over;
    a repeated column name keeps its last value. *)
Fixpoint zip_row (fieldnames : list string) (fields : list string) (d : Row)
  : Row :=
  match fieldnames with
  | [] => d
  | f :: fs =>
      match fields with
      | [] => zip_row fs [] (<[f := None]> d)
      | v :: vs => zip_row fs vs (<[f := Some v]> d)
      end
  end.

Definition blank (record : list string) : bool :=
  match record with [] => true | _ => false end.

Definition data_records (records : list (list string)) : list (list string) :=
  List.filter (λ r, negb (blank r)) (tail records).

Definition DictReader (records : list (list string)) : list Row :=
  match records with
  | [] => []
  | fieldnames :: _ => (λ r, zip_row fieldnames r ∅) <$> data_records records
  end.

End Csv.

(** ** The SQLAlchemy session ([SessionLocal] of [database.py])

    [sessionmaker(bind=engine, autoflush=False, autocommit=False)]: nothing
    reaches the database before [commit], and [get_db] opens a fresh session
    per request.

    Per mapped table the session holds
    - [pending]: the instances added by [merge] for a primary key found
      neither in the identity map nor in the table (Session.new, in insertion
      order). With [autoflush=False] a pending instance is not in the
      identity map, so merging the same new key again adds a second pending
      instance;
    - [persistent]: the identity map, the instances loaded by primary key,
      with the attribute values [merge] copied onto them. *)

Module Table.
Section table.
Context {K : Type} `{Countable K} {A R : Type} `{EqDecision A}.

Record session : Type := {
  pending : list (K * A);
  persistent : gmap K A;
}.

Definition fresh : session := {| pending := []; persistent := ∅ |}.

(** [Session.merge]: look the key up in the identity map, else SELECT it
    by primary key ([Session.get]), else make a new pending instance; then
    copy the given attribute values [a] onto the instance. *)
Definition merge (tbl : gmap K R) (ts : session) (k : K) (a : A) : session :=
  match persistent ts !! k with
  | Some _ => {| pending := pending ts; persistent := <[k := a]> (persistent ts) |}
  | None =>
      match tbl !! k with
      | Some _ => {| pending := pending ts; persistent := <[k := a]> (persistent ts) |}
      | None => {| pending := pending ts ++ [(k, a)]; persistent := persistent ts |}
      end
  end.

(** What the flush of one table depends on:
    - [accepts]: the engine's own checks on a row's values (type and length
      of the columns);
    - [references]: the foreign keys of the row resolve;
    - [inserted]: the row an INSERT stores under a key, column defaults
      filled in;
    - [current]: the merged attributes as stored in a row;
    - [updated]: the row an UPDATE leaves under a key, [onupdate] columns
      refreshed. *)
Variable accepts : K → A → bool.
Variable references : K → bool.
Variable inserted : K → A → R.
Variable current : R → A.
Variable updated : K → A → R → R.

(** An UPDATE is emitted for a persistent instance only when an attribute
    differs from the value loaded. *)
Definition update_row (k : K) (oa : option A) (or : option R) : option R :=
  match or with
  | Some r =>
      match oa with
      | Some a => if decide (a = current r) then Some r else Some (updated k a r)
      | None => Some r
      end
  | None => None
  end.

(** The table once the UPDATEs of the dirty instances have run. *)
Definition updated_table (tbl : gmap K R) (ts : session) : gmap K R :=
  map_imap (λ k r, update_row k (persistent ts !! k) (Some r)) tbl.

Definition update_ok (tbl : gmap K R) (k : K) (a : A) : bool :=
  match tbl !! k with
  | Some r => if decide (a = current r) then true else accepts k a
  | None => true
  end.

Definition updates_ok (tbl : gmap K R) (ts : session) : bool :=
  bool_decide (map_Forall (λ k a, update_ok tbl k a = true) (persistent ts)).

(** One INSERT: rejected on a value the engine refuses, on a dangling
    foreign key, and on a primary key already in the table. *)
Definition exec_insert (t : gmap K R) (ka : K * A) : result (gmap K R) :=
  if negb (accepts ka.1 ka.2) then Raise DataError
  else if negb (references ka.1) then Raise IntegrityError
  else match t !! ka.1 with
       | Some _ => Raise IntegrityError
       | None => Ok (<[ka.1 := inserted ka.1 ka.2]> t)
       end.

(** The statements of a flush for one table, run on the transaction's
    view [tbl] of the table: the UPDATEs, then the INSERTs in the order the
    instances were added. The result is the view reached and the exception
    of the statement the engine refused, if any. When it is an UPDATE that
    is refused, the view given is the one before the UPDATEs: which of them
    have run by then depends on the order SQLAlchemy sorts them in. *)
Definition flush (tbl : gmap K R) (ts : session) : gmap K R * option exn :=
  if updates_ok tbl ts
  then exec_each exec_insert (updated_table tbl ts) (pending ts)
  else (tbl, Some DataError).

End table.
Arguments session K {_ _} A.
End Table.

(** The instances [import_business_symptoms] builds: the constructor calls
    of the mapped classes with the attributes it sets. [created_at] and
    [updated_at] are never set by the caller. *)
Inductive instance : Type :=
  | Business (id : Z) (name : string)
  | Symptom (code : string) (name : string)
  | BusinessSymptomLink (business_id : Z) (symptom_code : string) (diag : bool).

(** The calls of [datetime.utcnow] a flush makes for the link of key [k]:
    the two column defaults of an INSERT and the [onupdate] of an UPDATE. *)
Inductive reading : Type :=
  | created_default (k : Z * string)
  | updated_default (k : Z * string)
  | updated_onupdate (k : Z * string).

(** The database as a session reaches it: what is persisted, and the view
    of the open transaction. *)
Record connection : Type := {
  persisted : DB;
  view : DB;
}.

Module Session.

Record t : Type := {
  s_businesses : Table.session Z string;
  s_symptoms : Table.session string string;
  s_business_symptoms : Table.session (Z * string) bool;
}.

Definition fresh : t :=
  {| s_businesses := Table.fresh;
     s_symptoms := Table.fresh;
     s_business_symptoms := Table.fresh |}.

Definition merge (db : DB) (s : t) (obj : instance) : t :=
  match obj with
  | Business id name =>
      {| s_businesses := Table.merge (businesses db) (s_businesses s) id name;
         s_symptoms := s_symptoms s;
         s_business_symptoms := s_business_symptoms s |}
  | Symptom code name =>
      {| s_businesses := s_businesses s;
         s_symptoms := Table.merge (symptoms db) (s_symptoms s) code name;
         s_business_symptoms := s_business_symptoms s |}
  | BusinessSymptomLink b c d =>
      {| s_businesses := s_businesses s;
         s_symptoms := s_symptoms s;
         s_business_symptoms :=
           Table.merge (business_symptoms db) (s_business_symptoms s) (b, c) d |}
  end.

Section flush.
(** The engine behind [DB_URL] is not part of the repository: its checks
    on column values are a parameter. [utcnow] gives the reading of
    [datetime.utcnow] for each default the flush evaluates. *)
Variable engine_accepts : instance → bool.
Variable utcnow : reading → Z.

(** models.py, lines 40-44: [created_at] has [default], [updated_at] has
    [default] and [onupdate], each a call of [utcnow] of its own. *)
Definition link_inserted (k : Z * string) (d : bool) : BusinessSymptom :=
  {| diagnostic := d;
     created_at := utcnow (created_default k);
     updated_at := utcnow (updated_default k) |}.

Definition link_updated (k : Z * string) (d : bool) (r : BusinessSymptom)
  : BusinessSymptom :=
  {| diagnostic := d;
     created_at := created_at r;
     updated_at := utcnow (updated_onupdate k) |}.

(** [Session.flush]: the statements of the parents, then those of the link
    table whose foreign keys point at them, each run on the view [v] of the
    transaction. A refused statement stops the flush where it is. *)
Definition flush (s : t) (v : DB) : DB * option exn :=
  let '(b, eb) :=
    Table.flush (λ id name, engine_accepts (Business id name)) (λ _, true)
      (λ _ name, name) (λ name, name) (λ _ name _, name)
      (businesses v) (s_businesses s) in
  match eb with
  | Some e =>
      ({| businesses := b; symptoms := symptoms v;
          business_symptoms := business_symptoms v |}, Some e)
  | None =>
      let '(c, ec) :=
        Table.flush (λ code name, engine_accepts (Symptom code name)) (λ _, true)
          (λ _ name, name) (λ name, name) (λ _ name _, name)
          (symptoms v) (s_symptoms s) in
      match ec with
      | Some e =>
          ({| businesses := b; symptoms := c;
              business_symptoms := business_symptoms v |}, Some e)
      | None =>
          let '(l, el) :=
            Table.flush
              (λ k d, engine_accepts (BusinessSymptomLink k.1 k.2 d))
              (λ k, bool_decide (is_Some (b !! k.1)) &&
                    bool_decide (is_Some (c !! k.2)))
              link_inserted diagnostic link_updated
              (business_symptoms v) (s_business_symptoms s) in
          ({| businesses := b; symptoms := c; business_symptoms := l |}, el)
      end
  end.

(** [Session.commit]: flush, then COMMIT, which makes the view of the
    transaction the persisted state. When the flush raises, no COMMIT is
    issued. *)
Definition commit (s : t) (c : connection) : connection * option exn :=
  let '(v, e) := flush s (view c) in
  match e with
  | None => ({| persisted := v; view := v |}, None)
  | Some e => ({| persisted := persisted c; view := v |}, Some e)
  end.
End flush.

(** [Session.close]: the connection is released, and what the transaction
    wrote without a COMMIT is rolled back. *)
Definition close (c : connection) : connection :=
  {| persisted := persisted c; view := persisted c |}.

End Session.

(** ** [views.py]: the response schema *)

Module BusinessSymptomOut.
Record t : Type := {
  business_id : Z;
  business_name : string;
  symptom_code : string;
  symptom_name : string;
  diagnostic : bool;
}.
End BusinessSymptomOut.

(** ** [views.py]: GET /business-symptoms *)

(** A row of [db.query(BusinessSymptom).join(Business).join(Symptom)]: the
    link with the two rows its foreign keys reach. The joins are inner: a
    link whose business or symptom is missing yields no row. *)
Record joined : Type := {
  j_key : Z * string;
  j_link : BusinessSymptom;
  j_business : string;
  j_symptom : string;
}.

Definition join_link (db : DB) (kr : Z * string * BusinessSymptom) : option joined :=
  match businesses db !! kr.1.1, symptoms db !! kr.1.2 with
  | Some bn, Some sn =>
      Some {| j_key := kr.1; j_link := kr.2; j_business := bn; j_symptom := sn |}
  | _, _ => None
  end.

Definition query_join (db : DB) : list joined :=
  omap (join_link db) (map_to_list (business_symptoms db)).

Definition to_out (bs : joined) : BusinessSymptomOut.t :=
  {| BusinessSymptomOut.business_id := (j_key bs).1;
     BusinessSymptomOut.business_name := j_business bs;
     BusinessSymptomOut.symptom_code := (j_key bs).2;
     BusinessSymptomOut.symptom_name := j_symptom bs;
     BusinessSymptomOut.diagnostic := diagnostic (j_link bs) |}.

Definition read_business_symptoms (db : DB)
    (business_id : option Z) (diag : option bool)
  : result (list BusinessSymptomOut.t) :=
  let query := query_join db in
  let query :=
    match business_id with
    | Some b => List.filter (λ bs, bool_decide ((j_key bs).1 = b)) query
    | None => query
    end in
  let query :=
    match diag with
    | Some d => List.filter (λ bs, bool_decide (diagnostic (j_link bs) = d)) query
    | None => query
    end in
  let results := query in
  match results with
  | [] => Raise (HTTPException 404 "No business-symptom data found")
  | _ => Ok (to_out <$> results)
  end.

(** ** [views.py]: POST /import-business-symptoms *)

(** [row[key]] *)
Definition getitem (row : Csv.Row) (key : string) : result (option string) :=
  match row !! key with
  | Some v => Ok v
  | None => Raise KeyError
  end.

(** [int(v)] *)
Definition int (v : option string) : result Z :=
  match v with
  | None => Raise TypeError
  | Some s => match Str.int s with Some z => Ok z | None => Raise ValueError end
  end.

(** [v.strip()] *)
Definition strip (v : option string) : result string :=
  match v with
  | None => Raise AttributeError
  | Some s => Ok (Str.strip s)
  end.

(** [s.lower() in ("true", "1", "yes")] *)
Definition truthy (s : string) : bool :=
  existsb (String.eqb (Str.lower s)) ["true"; "1"; "yes"].

Record parsed : Type := {
  biz_id : Z;
  biz_name : string;
  sym_code : string;
  sym_name : string;
  diag : bool;
}.

(** Lines 117-121: the five columns of a row, converted. *)
Definition parse_row (row : Csv.Row) : result parsed :=
  v ← getitem row "Business ID"; biz_id ← int v;
  v ← getitem row "Business Name"; biz_name ← strip v;
  v ← getitem row "Symptom Code"; sym_code ← strip v;
  v ← getitem row "Symptom Name"; sym_name ← strip v;
  v ← getitem row "Symptom Diagnostic"; d ← strip v;
  Ok {| biz_id := biz_id; biz_name := biz_name; sym_code := sym_code;
        sym_name := sym_name; diag := truthy d |}.

(** The variables of the loop; [db_session] is the [db] of the source. *)
Record loop_state : Type := {
  seen_businesses : gset Z;
  seen_symptoms : gset string;
  row_count : nat;
  db_session : Session.t;
}.

Definition loop_init : loop_state :=
  {| seen_businesses := ∅; seen_symptoms := ∅; row_count := 0%nat;
     db_session := Session.fresh |}.

(** Lines 124-126 *)
Definition upsert_business (db : DB) (st : loop_state) (p : parsed) : loop_state :=
  if decide (biz_id p ∈ seen_businesses st) then st
  else {| seen_businesses := {[biz_id p]} ∪ seen_businesses st;
          seen_symptoms := seen_symptoms st;
          row_count := row_count st;
          db_session := Session.merge db (db_session st) (Business (biz_id p) (biz_name p)) |}.

(** Lines 129-131 *)
Definition upsert_symptom (db : DB) (st : loop_state) (p : parsed) : loop_state :=
  if decide (sym_code p ∈ seen_symptoms st) then st
  else {| seen_businesses := seen_businesses st;
          seen_symptoms := {[sym_code p]} ∪ seen_symptoms st;
          row_count := row_count st;
          db_session := Session.merge db (db_session st) (Symptom (sym_code p) (sym_name p)) |}.

(** Lines 134-140 *)
Definition upsert_link (db : DB) (st : loop_state) (p : parsed) : loop_state :=
  {| seen_businesses := seen_businesses st;
     seen_symptoms := seen_symptoms st;
     row_count := row_count st;
     db_session :=
       Session.merge db (db_session st)
         (BusinessSymptomLink (biz_id p) (sym_code p) (diag p)) |}.

Definition count_row (st : loop_state) : loop_state :=
  {| seen_businesses := seen_businesses st;
     seen_symptoms := seen_symptoms st;
     row_count := S (row_count st);
     db_session := db_session st |}.

Definition stage_row (db : DB) (st : loop_state) (p : parsed) : loop_state :=
  upsert_link db (upsert_symptom db (upsert_business db (count_row st) p) p) p.

(** The body of the loop, lines 114-140. *)
Definition import_row (db : DB) (st : loop_state) (row : Csv.Row) : result loop_state :=
  p ← parse_row row; Ok (stage_row db st p).

Record import_response : Type := {
  status : string;
  rows_processed : nat;
}.

(** [get_db], lines 40-45: a session of its own for the request, opened
    on the persisted state, handed to the endpoint, and closed whatever the
    endpoint does ([finally]). What the request leaves is the persisted state
    after the close. *)
Definition get_db {A : Type}
    (endpoint : connection → result A * connection) (db : DB) : result A * DB :=
  let c := {| persisted := db; view := db |} in
  let '(r, c') := endpoint c in
  (r, persisted (Session.close c')).

Section import.
Variable engine_accepts : instance → bool.
Variable utcnow : reading → Z.

(** The body of the endpoint, lines 104-146, on the session [get_db]
    yields: the loop merges every row (with [autoflush=False] a merge sends
    no statement but the SELECT by primary key, so the view stays as it is),
    then the one [commit]. An exception of the loop or of the commit leaves
    the function at once. *)
Definition import_endpoint (records : list (list string)) (c : connection)
  : result import_response * connection :=
  let reader := Csv.DictReader records in
  match for_each (import_row (view c)) loop_init reader with
  | Raise e => (Raise e, c)
  | Ok st =>
      match Session.commit engine_accepts utcnow (db_session st) c with
      | (c', Some e) => (Raise e, c')
      | (c', None) =>
          (Ok {| status := "import complete"; rows_processed := row_count st |}, c')
      end
  end.

(** The request as a whole: the response or the exception that reaches the
    caller, and the persisted state afterwards. *)
Definition import_business_symptoms (db : DB) (records : list (list string))
  : result import_response * DB :=
  get_db (import_endpoint records) db.
End import.

(** ** Vocabulary of the statements *)

(** The value of the first, and of the last, pair with key [k] in a list of
    key/value pairs. *)
Fixpoint first_value {K A : Type} `{EqDecision K} (k : K) (l : list (K * A))
  : option A :=
  match l with
  | [] => None
  | ka :: l' => if decide (ka.1 = k) then Some ka.2 else first_value k l'
  end.

Definition last_value {K A : Type} `{EqDecision K} (k : K) (l : list (K * A))
  : option A :=
  first_value k (reverse l).

(** All rows of a batch, parsed in order: what the loop has read when no row
    raises. *)
Fixpoint parse_rows (rows : list Csv.Row) : result (list parsed) :=
  match rows with
  | [] => Ok []
  | row :: rows' => p ← parse_row row; ps ← parse_rows rows'; Ok (p :: ps)
  end.

Definition business_of (p : parsed) : Z * string := (biz_id p, biz_name p).
Definition symptom_of (p : parsed) : string * string := (sym_code p, sym_name p).
Definition link_of (p : parsed) : Z * string * bool := (biz_id p, sym_code p, diag p).

(** Staging a list of key/value pairs in one table: every pair merged (the
    link table), or only the first pair of each key (the [seen_...] sets). *)
Definition stage_all {K : Type} `{Countable K} {A R : Type}
    (tbl : gmap K R) (ts : Table.session K A) (kas : list (K * A))
  : Table.session K A :=
  foldl (λ ts ka, Table.merge tbl ts ka.1 ka.2) ts kas.

Definition stage_once {K : Type} `{Countable K} {A R : Type}
    (tbl : gmap K R) (st : gset K * Table.session K A) (ka : K * A)
  : gset K * Table.session K A :=
  if decide (ka.1 ∈ st.1) then st
  else ({[ka.1]} ∪ st.1, Table.merge tbl st.2 ka.1 ka.2).

(** The filters of a query, as a predicate on a link row. *)
Definition selected (business_id : option Z) (diag : option bool)
    (k : Z * string) (r : BusinessSymptom) : Prop :=
  (∀ b, business_id = Some b → k.1 = b) ∧ (∀ d, diag = Some d → diagnostic r = d).

(** The white space of Unicode, by code point: the controls TAB to CR and
    FS to US, the space, NEL, the no-break space, the Ogham space mark, the
    spaces EN QUAD to HAIR SPACE, the line and paragraph separators, the
    narrow no-break space, the medium mathematical space and the ideographic
    space. *)
Definition white (cp : N) : Prop :=
  (0x9 ≤ cp ≤ 0xD ∨ 0x1C ≤ cp ≤ 0x20 ∨ cp = 0x85 ∨ cp = 0xA0 ∨ cp = 0x1680 ∨
   0x2000 ≤ cp ≤ 0x200A ∨ cp = 0x2028 ∨ cp = 0x2029 ∨ cp = 0x202F ∨
   cp = 0x205F ∨ cp = 0x3000)%N.

(** A text made of white space only. *)
Inductive white_space : string → Prop :=
  | white_space_nil : white_space EmptyString
  | white_space_cons cp s :
      white cp → white_space s → white_space (Unicode.utf8 cp ++ s).

(** "true", "1" and "yes" in every mix of upper and lower case. *)
Definition truthy_spellings : list string :=
  ["true"; "truE"; "trUe"; "trUE"; "tRue"; "tRuE"; "tRUe"; "tRUE";
   "True"; "TruE"; "TrUe"; "TrUE"; "TRue"; "TRuE"; "TRUe"; "TRUE";
   "1";
   "yes"; "yeS"; "yEs"; "yES"; "Yes"; "YeS"; "YEs"; "YES"].

(** A text that reads as true: one of the spellings, with white space at
    most before and after it. *)
Definition spelled_true (s : string) : Prop :=
  ∃ l t r, s = l ++ t ++ r ∧ white_space l ∧ white_space r ∧
           t ∈ truthy_spellings.

(** The identity map only holds keys of the table. *)
Definition loaded_from {K : Type} `{Countable K} {A R : Type}
    (tbl : gmap K R) (ts : Table.session K A) : Prop :=
  ∀ k, is_Some (Table.persistent ts !! k) → is_Some (tbl !! k).

(** A session described by [staged], the value staged for each key if any:
    a key of the table has its value in the identity map, another key has it
    pending. *)
Definition describes {K : Type} `{Countable K} {A R : Type}
    (staged : K → option A) (tbl : gmap K R) (ts : Table.session K A) : Prop :=
  (∀ k, Table.persistent ts !! k =
        match tbl !! k with Some _ => staged k | None => None end) ∧
  (∀ k a, tbl !! k = None → staged k = Some a → (k, a) ∈ Table.pending ts) ∧
  (∀ k a, (k, a) ∈ Table.pending ts → tbl !! k = None ∧ is_Some (staged k)).

(** The row under [k] once the staged values are flushed. *)
Definition stored {K : Type} `{Countable K} {A R : Type} `{EqDecision A}
    (inserted : K → A → R) (current : R → A) (updated : K → A → R → R)
    (staged : K → option A) (tbl : gmap K R) (k : K) : option R :=
  match staged k with
  | Some a =>
      match tbl !! k with
      | Some r => Some (if decide (a = current r) then r else updated k a r)
      | None => Some (inserted k a)
      end
  | None => tbl !! k
  end.

(** A run read for its outcome alone: the state reached when no statement
    was refused, the exception otherwise. *)
Definition outcome {S : Type} (r : S * option exn) : result S :=
  match r.2 with
  | None => Ok r.1
  | Some e => Raise e
  end.

(** The view a flush reaches when no statement is refused: what [commit]
    persists. *)
Definition committed (engine_accepts : instance → bool) (utcnow : reading → Z)
    (s : Session.t) (db : DB) : result DB :=
  outcome (Session.flush engine_accepts utcnow s db).

(** The rows stored by an import that succeeds, table by table. *)
Definition businesses_after (db : DB) (ps : list parsed) (b : Z) : option string :=
  match first_value b (business_of <$> ps) with
  | Some name => Some name
  | None => businesses db !! b
  end.

Definition symptoms_after (db : DB) (ps : list parsed) (c : string) : option string :=
  match first_value c (symptom_of <$> ps) with
  | Some name => Some name
  | None => symptoms db !! c
  end.

Definition links_after (utcnow : reading → Z) (db : DB) (ps : list parsed)
    (k : Z * string)
  : option BusinessSymptom :=
  match last_value k (link_of <$> ps) with
  | Some d =>
      match business_symptoms db !! k with
      | Some r =>
          Some (if decide (d = diagnostic r) then r
                else Session.link_updated utcnow k d r)
      | None => Some (Session.link_inserted utcnow k d)
      end
  | None => business_symptoms db !! k
  end.

(** The exceptions the conversion of a row raises. *)
Definition row_error (e : exn) : Prop :=
  e = KeyError ∨ e = TypeError ∨ e = ValueError ∨ e = AttributeError.

(** A row whose business identifier [int] refuses. *)
Definition non_numeric_id (row : Csv.Row) : Prop :=
  ∃ v, row !! "Business ID" = Some v ∧ ∀ z, int v ≠ Ok z.

(** Referential integrity, the two [ForeignKey]s of [models.py]: every link
    has its business and its symptom. *)
Definition referential (db : DB) : Prop :=
  ∀ k r, business_symptoms db !! k = Some r →
         is_Some (businesses db !! k.1) ∧ is_Some (symptoms db !! k.2).

(** The links of a batch whose pair the store does not hold, one per row. *)
Definition new_links (db : DB) (ps : list parsed) : list (Z * string * bool) :=
  List.filter (λ kd, bool_decide (business_symptoms db !! kd.1 = None))
    (link_of <$> ps).

(** The pair and the flag of a row the query returns, and of a stored
    link. *)
Definition out_link (o : BusinessSymptomOut.t) : Z * string * bool :=
  (BusinessSymptomOut.business_id o, BusinessSymptomOut.symptom_code o,
   BusinessSymptomOut.diagnostic o).

Definition stored_link (kr : Z * string * BusinessSymptom) : Z * string * bool :=
  (kr.1.1, kr.1.2, diagnostic kr.2).

(** A parsed row that says what the store holds already. *)
Definition in_store (db : DB) (p : parsed) : Prop :=
  businesses db !! biz_id p = Some (biz_name p) ∧
  symptoms db !! sym_code p = Some (sym_name p) ∧
  ∃ r, business_symptoms db !! (biz_id p, sym_code p) = Some r ∧
       diagnostic r = diag p.

(** ** Sample inputs *)

Definition columns : list string :=
  ["Business ID"; "Business Name"; "Symptom Code"; "Symptom Name"; "Symptom Diagnostic"].

(** A clock that stands still at [t]. *)
Definition clock_at (t : Z) : reading → Z := λ _, t.

(** A clock that gives the readings of a flush one after the other from
    [t]: the two defaults of an INSERT, then the [onupdate] of an UPDATE. *)
Definition clock_from (t : Z) : reading → Z := λ r,
  match r with
  | created_default _ => t
  | updated_default _ => t + 1
  | updated_onupdate _ => t + 2
  end.

(** An engine with no check of its own on column values. *)
Definition accept_all : instance → bool := λ _, true.

(** Business 1 under two names. *)
Definition csv_two_names : list (list string) :=
  [columns;
   ["1"; "Acme"; "SYMPT0001"; "Fever"; "true"];
   ["1"; "Beta"; "SYMPT0002"; "Cough"; "false"]].

(** The link (1, SYMPT0001) twice, with different flags. *)
Definition csv_repeated_link : list (list string) :=
  [columns;
   ["1"; "Acme"; "SYMPT0001"; "Fever"; "true"];
   ["1"; "Acme"; "SYMPT0001"; "Fever"; "false"]].

(** A store that already holds the link (1, SYMPT0001), not diagnostic. *)
Definition db_one_link : DB :=
  {| businesses := {[ 1 := "Acme" ]};
     symptoms := {[ "SYMPT0001" := "Fever" ]};
     business_symptoms :=
       {[ (1, "SYMPT0001") := {| diagnostic := false; created_at := 5; updated_at := 7 |} ]} |}.

(** A store with two businesses, two symptoms and a link for each. *)
Definition db_two_links : DB :=
  {| businesses := {[ 1 := "Acme"; 2 := "Beta" ]};
     symptoms := {[ "SYMPT0001" := "Fever"; "SYMPT0002" := "Cough" ]};
     business_symptoms :=
       {[ (1, "SYMPT0001") := {| diagnostic := false; created_at := 5; updated_at := 7 |};
          (2, "SYMPT0002") := {| diagnostic := true; created_at := 6; updated_at := 6 |} ]} |}.

Definition csv_one_link : list (list string) :=
  [columns; ["1"; "Acme"; "SYMPT0001"; "Fever"; "yes"]].

(** ** Strings, by example *)

Example strip_ex : Str.strip "  Acme Corp " = "Acme Corp".
Proof. vm_compute. reflexivity. Qed.
Example strip_nbsp : Str.strip ("true" ++ Unicode.utf8 0xA0) = "true".
Proof. vm_compute. reflexivity. Qed.
Example strip_inner : Str.strip (Unicode.utf8 0x3000 ++ "a b" ++ Unicode.utf8 0x1F) = "a b".
Proof. vm_compute. reflexivity. Qed.
Example lower_ex : Str.lower "TrUe" = "true".
Proof. reflexivity. Qed.
Example int_ex1 : Str.int " 42 " = Some 42.
Proof. vm_compute. reflexivity. Qed.
Example int_ex2 : Str.int "-1_000" = Some (-1000).
Proof. vm_compute. reflexivity. Qed.
Example int_ex3 : Str.int "12a" = None.
Proof. vm_compute. reflexivity. Qed.
Example int_ex4 : Str.int "" = None.
Proof. vm_compute. reflexivity. Qed.
Example int_ex5 : Str.int "1__0" = None.
Proof. vm_compute. reflexivity. Qed.
Example int_separator : Str.int (Unicode.utf8 0x1C ++ "5") = None.
Proof. vm_compute. reflexivity. Qed.
Example int_nbsp : Str.int (Unicode.utf8 0xA0 ++ "5" ++ Unicode.utf8 0x2003) = Some 5.
Proof. vm_compute. reflexivity. Qed.
Example int_arabic_indic : Str.int (Unicode.utf8 0x661 ++ Unicode.utf8 0x662) = Some 12.
Proof. vm_compute. reflexivity. Qed.
Example int_fullwidth : Str.int ("-" ++ Unicode.utf8 0xFF17 ++ "0") = Some (-70).
Proof. vm_compute. reflexivity. Qed.
Example int_4300_digits :
  (if Str.int (string_of_list_ascii (repeat "1"%char 4300)) then true else false,
   if Str.int (string_of_list_ascii (repeat "1"%char 4301)) then true else false)
  = (true, false).
Proof. vm_compute. reflexivity. Qed.

(** ** The staging of one table *)

Lemma first_value_app {K A : Type} `{EqDecision K} (k : K) (l1 l2 : list (K * A)) :
  first_value k (l1 ++ l2) =
  match first_value k l1 with Some a => Some a | None => first_value k l2 end.
Proof.
  induction l1 as [|ka l1 IH]; simpl; [done|].
  by destruct (decide (ka.1 = k)).
Qed.

Lemma last_value_snoc {K A : Type} `{EqDecision K} (k : K) (l : list (K * A)) ka :
  last_value k (l ++ [ka]) = if decide (ka.1 = k) then Some ka.2 else last_value k l.
Proof. unfold last_value. by rewrite reverse_snoc. Qed.

Lemma first_value_None {K A : Type} `{EqDecision K} (k : K) (l : list (K * A)) :
  first_value k l = None ↔ k ∉ l.*1.
Proof.
  induction l as [|ka l IH]; simpl.
  - split; [intros _; apply not_elem_of_nil | done].
  - rewrite not_elem_of_cons. destruct (decide (ka.1 = k)); naive_solver.
Qed.

Lemma first_value_elem {K A : Type} `{EqDecision K} (k : K) (l : list (K * A)) a :
  first_value k l = Some a → (k, a) ∈ l.
Proof.
  induction l as [|[k' a'] l IH]; simpl; [done|].
  destruct (decide (k' = k)) as [->|]; intros E.
  - injection E as ->. left.
  - right. by apply IH.
Qed.

Section staging.
Context {K : Type} `{Countable K} {A R : Type}.
Implicit Types (tbl : gmap K R) (ts : Table.session K A) (kas : list (K * A)).


Lemma loaded_from_fresh tbl : loaded_from (A := A) tbl Table.fresh.
Proof. intros k [a Ha]. simpl in Ha. by rewrite lookup_empty in Ha. Qed.

Lemma merge_present tbl ts k a r :
  tbl !! k = Some r →
  Table.merge tbl ts k a =
  {| Table.pending := Table.pending ts;
     Table.persistent := <[k := a]> (Table.persistent ts) |}.
Proof.
  intros E. unfold Table.merge. rewrite E.
  by destruct (Table.persistent ts !! k).
Qed.

Lemma merge_absent tbl ts k a :
  loaded_from tbl ts → tbl !! k = None →
  Table.merge tbl ts k a =
  {| Table.pending := Table.pending ts ++ [(k, a)];
     Table.persistent := Table.persistent ts |}.
Proof.
  intros Hl E. unfold Table.merge. rewrite E.
  destruct (Table.persistent ts !! k) eqn:Ep; [|done].
  destruct (Hl k) as [r Hr]; [by eexists|]. congruence.
Qed.

Lemma merge_loaded_from tbl ts k a :
  loaded_from tbl ts → loaded_from tbl (Table.merge tbl ts k a).
Proof.
  intros Hl. destruct (tbl !! k) as [r|] eqn:E.
  - rewrite (merge_present _ _ _ _ r E). intros k' [a' Ha']. simpl in Ha'.
    destruct (decide (k = k')) as [<-|Hne]; [by eexists|].
    rewrite lookup_insert_ne in Ha' by done. apply Hl. by eexists.
  - by rewrite (merge_absent _ _ _ _ Hl E).
Qed.

(** Every pair merged: the identity map keeps the last value of a key of
    the table, and each pair with a key outside the table is pending. *)
Lemma stage_all_snoc tbl ts kas ka :
  stage_all tbl ts (kas ++ [ka]) = Table.merge tbl (stage_all tbl ts kas) ka.1 ka.2.
Proof. unfold stage_all. by rewrite foldl_app. Qed.

Lemma stage_all_fresh tbl kas :
  let ts := stage_all tbl Table.fresh kas in
  loaded_from tbl ts ∧
  (∀ k, Table.persistent ts !! k =
        match tbl !! k with Some _ => last_value k kas | None => None end) ∧
  Table.pending ts = List.filter (λ ka, bool_decide (tbl !! ka.1 = None)) kas.
Proof.
  induction kas as [|ka kas IH] using rev_ind; simpl.
  - split; [apply loaded_from_fresh|]. split; [|done].
    intros k. rewrite lookup_empty. by destruct (tbl !! k).
  - destruct IH as (Hl & Hp & Hq). rewrite stage_all_snoc.
    split; [by apply merge_loaded_from|].
    rewrite List.filter_app. simpl.
    destruct (tbl !! ka.1) as [r|] eqn:E.
    + rewrite (merge_present _ _ _ _ r E). simpl. split.
      * intros k. rewrite last_value_snoc.
        destruct (decide (ka.1 = k)) as [<-|Hne].
        -- by rewrite lookup_insert_eq, E.
        -- rewrite lookup_insert_ne by done. apply Hp.
      * by rewrite app_nil_r.
    + rewrite (merge_absent _ _ _ _ Hl E). simpl. split.
      * intros k. rewrite Hp, last_value_snoc.
        destruct (decide (ka.1 = k)) as [<-|Hne]; [by rewrite E|done].
      * rewrite Hq. by destruct ka.
Qed.

(** Only the first pair of each key merged. *)
Lemma stage_once_fresh tbl kas :
  let st := foldl (stage_once tbl) (∅, Table.fresh) kas in
  loaded_from tbl st.2 ∧
  (∀ k, k ∈ st.1 ↔ k ∈ kas.*1) ∧
  (∀ k, Table.persistent st.2 !! k =
        match tbl !! k with Some _ => first_value k kas | None => None end) ∧
  (∀ k a, (k, a) ∈ Table.pending st.2 ↔ tbl !! k = None ∧ first_value k kas = Some a).
Proof.
  induction kas as [|ka kas IH] using rev_ind; simpl.
  - split; [apply loaded_from_fresh|]. split; [|split].
    + intros k. by rewrite elem_of_empty, elem_of_nil.
    + intros k. rewrite lookup_empty. by destruct (tbl !! k).
    + intros k a. rewrite elem_of_nil. naive_solver.
  - destruct IH as (Hl & Hs & Hp & Hq). rewrite foldl_app. simpl.
    set (st := foldl (stage_once tbl) (∅, Table.fresh) kas) in *.
    unfold stage_once at 1 2 3 4.
    destruct (decide (ka.1 ∈ st.1)) as [Hin|Hnin].
    + (* a key seen before: nothing staged, the first value stays *)
      assert (Hf : is_Some (first_value ka.1 kas)).
      { apply not_eq_None_Some. rewrite first_value_None. intros Hn.
        apply Hn. by apply Hs. }
      split; [done|]. split; [|split].
      * intros k. rewrite Hs, fmap_app, elem_of_app. simpl.
        rewrite list_elem_of_singleton. split; [by left|].
        intros [?| ->]; [done|by apply Hs].
      * intros k. rewrite Hp, first_value_app. simpl.
        destruct (first_value k kas) eqn:Ek; [done|].
        destruct (decide (ka.1 = k)) as [<-|]; [|done].
        destruct Hf as [? Hf]. congruence.
      * intros k a. rewrite Hq, first_value_app. simpl.
        destruct (first_value k kas) eqn:Ek; [done|].
        destruct (decide (ka.1 = k)) as [<-|]; [|done].
        destruct Hf as [? Hf]. congruence.
    + (* a new key: its value is staged *)
      assert (Hf : first_value ka.1 kas = None).
      { apply first_value_None. intros Hn. apply Hnin. by apply Hs. }
      simpl. split; [by apply merge_loaded_from|]. split; [|split].
      * intros k. rewrite elem_of_union, elem_of_singleton, Hs, fmap_app, elem_of_app.
        simpl. rewrite list_elem_of_singleton. naive_solver.
      * intros k. rewrite first_value_app. simpl.
        destruct (tbl !! ka.1) as [r|] eqn:E.
        -- rewrite (merge_present _ _ _ _ r E). simpl.
           destruct (decide (ka.1 = k)) as [<-|Hne].
           ++ by rewrite lookup_insert_eq, E, Hf.
           ++ rewrite lookup_insert_ne by done. rewrite Hp.
              by destruct (tbl !! k), (first_value k kas).
        -- rewrite (merge_absent _ _ _ _ Hl E). simpl. rewrite Hp.
           destruct (decide (ka.1 = k)) as [<-|Hne].
           ++ by rewrite E.
           ++ by destruct (tbl !! k), (first_value k kas).
      * intros k a. rewrite first_value_app. simpl.
        destruct (tbl !! ka.1) as [r|] eqn:E.
        -- rewrite (merge_present _ _ _ _ r E). simpl. rewrite Hq.
           destruct (decide (ka.1 = k)) as [<-|Hne].
           ++ rewrite E, Hf. naive_solver.
           ++ by destruct (first_value k kas).
        -- rewrite (merge_absent _ _ _ _ Hl E). simpl.
           rewrite elem_of_app, list_elem_of_singleton, Hq.
           destruct (decide (ka.1 = k)) as [<-|Hne].
           ++ rewrite Hf. destruct ka as [k0 a0]; simpl in *. naive_solver.
           ++ destruct (first_value k kas) eqn:Ek; [naive_solver|].
              destruct ka as [k0 a0]; simpl in *. naive_solver.
Qed.

End staging.

(** ** The flush of one table *)

Lemma bind_Ok {A B : Type} (r : result A) (k : A → result B) b :
  (x ← r; k x) = Ok b → ∃ a, r = Ok a ∧ k a = Ok b.
Proof. destruct r as [a|e]; [by exists a|done]. Qed.

Lemma outcome_exec_each {S X : Type} (body : S → X → result S) st xs :
  outcome (exec_each body st xs) = for_each body st xs.
Proof.
  revert st. induction xs as [|x xs IH]; intros st; simpl; [done|].
  destruct (body st x) as [st'|e]; simpl; [apply IH|done].
Qed.

Lemma outcome_Ok {S : Type} (r : S * option exn) st :
  outcome r = Ok st ↔ r = (st, None).
Proof.
  destruct r as [st' [e|]]; unfold outcome; simpl; split; try done.
  - by intros [= ->].
  - by intros [= ->].
Qed.

Lemma outcome_Raise {S : Type} (r : S * option exn) e :
  outcome r = Raise e ↔ r.2 = Some e.
Proof.
  destruct r as [st' [e'|]]; unfold outcome; simpl; split; try done.
  - by intros [= ->].
  - by intros [= ->].
Qed.

Section flushing.
Context {K : Type} `{Countable K} {A R : Type} `{EqDecision A}.
Variable accepts : K → A → bool.
Variable references : K → bool.
Variable inserted : K → A → R.
Variable current : R → A.
Variable updated : K → A → R → R.
Implicit Types (tbl t : gmap K R) (ts : Table.session K A) (l : list (K * A)).

Local Abbreviation exec_insert := (Table.exec_insert accepts references inserted).
Local Abbreviation update_row := (Table.update_row current updated).
Local Abbreviation flush tbl ts :=
  (outcome (Table.flush accepts references inserted current updated tbl ts)).

Lemma lookup_updated_table tbl ts k :
  Table.updated_table current updated tbl ts !! k =
  update_row k (Table.persistent ts !! k) (tbl !! k).
Proof.
  unfold Table.updated_table. rewrite map_lookup_imap.
  by destruct (tbl !! k).
Qed.

Lemma flush_outcome tbl ts :
  flush tbl ts =
  if Table.updates_ok accepts current tbl ts
  then for_each exec_insert (Table.updated_table current updated tbl ts)
         (Table.pending ts)
  else Raise DataError.
Proof.
  unfold Table.flush. destruct (Table.updates_ok _ _ _ _); [|done].
  apply outcome_exec_each.
Qed.

Lemma exec_insert_Ok t ka t' :
  exec_insert t ka = Ok t' →
  t !! ka.1 = None ∧ t' = <[ka.1 := inserted ka.1 ka.2]> t ∧
  accepts ka.1 ka.2 = true ∧ references ka.1 = true.
Proof.
  unfold Table.exec_insert.
  destruct (accepts ka.1 ka.2); simpl; [|done].
  destruct (references ka.1); simpl; [|done].
  destruct (t !! ka.1); [done|]. by intros [= <-].
Qed.

(** A run of INSERTs that succeeds stores every pending row, touches no
    other key, and met no key of the table. *)
Lemma inserts_Ok t l t' :
  for_each exec_insert t l = Ok t' →
  (∀ k a, (k, a) ∈ l → t' !! k = Some (inserted k a)) ∧
  (∀ k, k ∉ l.*1 → t' !! k = t !! k) ∧
  (∀ k, k ∈ l.*1 → t !! k = None).
Proof.
  revert t. induction l as [|ka l IH]; intros t; simpl.
  - intros [= <-]. split; [|split]; [|done|].
    + intros k a Hin. by apply elem_of_nil in Hin.
    + intros k Hin. by apply elem_of_nil in Hin.
  - intros Hb. apply bind_Ok in Hb as (t1 & H1 & H2).
    apply exec_insert_Ok in H1 as (Hn & -> & _ & _).
    destruct (IH _ H2) as (Hin & Hout & Hfresh).
    assert (Hk : ka.1 ∉ l.*1).
    { intros Hk. apply Hfresh in Hk. by rewrite lookup_insert_eq in Hk. }
    split; [|split].
    + intros k a [E|Hl]%elem_of_cons; [|by apply Hin]. subst ka.
      simpl in *. by rewrite (Hout _ Hk), lookup_insert_eq.
    + intros k [Hne Hl]%not_elem_of_cons.
      rewrite (Hout _ Hl). by rewrite lookup_insert_ne.
    + intros k [->|Hl]%elem_of_cons; [done|].
      specialize (Hfresh _ Hl).
      destruct (decide (ka.1 = k)) as [<-|Hne]; [done|].
      by rewrite lookup_insert_ne in Hfresh.
Qed.

Lemma flush_Ok tbl ts tbl' :
  flush tbl ts = Ok tbl' →
  (∀ k a, (k, a) ∈ Table.pending ts → tbl' !! k = Some (inserted k a)) ∧
  (∀ k, k ∉ (Table.pending ts).*1 →
        tbl' !! k = update_row k (Table.persistent ts !! k) (tbl !! k)).
Proof.
  rewrite flush_outcome. destruct (Table.updates_ok _ _ _ _); [|done].
  intros (Hin & Hout & _)%inserts_Ok. split; [done|].
  intros k Hk. by rewrite (Hout _ Hk), lookup_updated_table.
Qed.

(** With nothing pending and no attribute changed, the flush has no
    statement to run. *)
Lemma flush_clean tbl ts :
  Table.pending ts = [] →
  (∀ k a r, Table.persistent ts !! k = Some a → tbl !! k = Some r → a = current r) →
  flush tbl ts = Ok tbl.
Proof.
  intros Hp Hc. rewrite flush_outcome. unfold Table.updates_ok.
  rewrite bool_decide_eq_true_2.
  - rewrite Hp. simpl. f_equal. apply map_eq. intros k.
    rewrite lookup_updated_table.
    destruct (Table.persistent ts !! k) as [a|] eqn:Ea,
             (tbl !! k) as [r|] eqn:Er; simpl; try done.
    rewrite (Hc _ _ _ Ea Er). by rewrite decide_True.
  - intros k a Ea. unfold Table.update_ok.
    destruct (tbl !! k) as [r|] eqn:Er; [|done].
    rewrite (Hc _ _ _ Ea Er). by rewrite decide_True.
Qed.

End flushing.

(** Whether the INSERTs of a flush succeed depends on the keys in the table,
    not on the rows stored under them. *)
Lemma inserts_same_outcome {K : Type} `{Countable K} {A R : Type}
    (accepts : K → A → bool) (references : K → bool) (ins1 ins2 : K → A → R)
    (l : list (K * A)) (t1 t2 : gmap K R) :
  (∀ k, t1 !! k = None ↔ t2 !! k = None) →
  match for_each (Table.exec_insert accepts references ins1) t1 l,
        for_each (Table.exec_insert accepts references ins2) t2 l with
  | Ok _, Ok _ => True
  | Raise e1, Raise e2 => e1 = e2
  | _, _ => False
  end.
Proof.
  revert t1 t2. induction l as [|ka l IH]; intros t1 t2 Hd; simpl; [done|].
  assert (Hx : ∀ ins (t : gmap K R),
    Table.exec_insert accepts references ins t ka =
    if negb (accepts ka.1 ka.2) then Raise DataError
    else if negb (references ka.1) then Raise IntegrityError
    else match t !! ka.1 with
         | Some _ => Raise IntegrityError
         | None => Ok (<[ka.1 := ins ka.1 ka.2]> t)
         end) by done.
  rewrite !Hx. clear Hx.
  destruct (accepts ka.1 ka.2); simpl; [|done].
  destruct (references ka.1); simpl; [|done].
  destruct (t1 !! ka.1) as [r1|] eqn:E1, (t2 !! ka.1) as [r2|] eqn:E2; simpl.
  - done.
  - apply Hd in E2. congruence.
  - apply Hd in E1. congruence.
  - apply IH. intros k. destruct (decide (ka.1 = k)) as [<-|Hne].
    + by rewrite !lookup_insert_eq.
    + by rewrite !lookup_insert_ne.
Qed.

Lemma last_value_elem {K A : Type} `{EqDecision K} (k : K) (l : list (K * A)) a :
  last_value k l = Some a → (k, a) ∈ l.
Proof. intros E%first_value_elem. by apply elem_of_reverse. Qed.

Lemma last_value_None {K A : Type} `{EqDecision K} (k : K) (l : list (K * A)) :
  last_value k l = None ↔ k ∉ l.*1.
Proof.
  unfold last_value. rewrite first_value_None, fmap_reverse.
  by rewrite elem_of_reverse.
Qed.

(** A table after a flush that succeeds, for a session whose content is
    described by [staged]: the value staged for each key, if any. *)
Section flush_staged.
Context {K : Type} `{Countable K} {A R : Type} `{EqDecision A}.
Variable accepts : K → A → bool.
Variable references : K → bool.
Variable inserted : K → A → R.
Variable current : R → A.
Variable updated : K → A → R → R.

Lemma flush_staged staged tbl ts tbl' :
  describes staged tbl ts →
  outcome (Table.flush accepts references inserted current updated tbl ts) = Ok tbl' →
  ∀ k, tbl' !! k = stored inserted current updated staged tbl k.
Proof.
  intros (Hp & Hin & Hout) (Hins & Hupd)%flush_Ok k. unfold stored.
  destruct (tbl !! k) as [r|] eqn:Er.
  - (* a key of the table is never pending *)
    rewrite Hupd.
    + rewrite Hp, Er. simpl. destruct (staged k) as [a|]; [|done].
      by destruct (decide (a = current r)).
    + intros ([k0 a] & -> & Hka)%list_elem_of_fmap.
      apply Hout in Hka as [Hn _]. simpl in *. congruence.
  - destruct (staged k) as [a|] eqn:Es.
    + apply Hins. by apply Hin.
    + rewrite Hupd.
      * by rewrite Hp, Er.
      * intros ([k0 a] & -> & Hka)%list_elem_of_fmap.
        apply Hout in Hka as [_ [? Hs]]. simpl in *. congruence.
Qed.

Lemma describes_stage_all (tbl : gmap K R) (kas : list (K * A)) :
  describes (λ k, last_value k kas) tbl (stage_all tbl Table.fresh kas).
Proof.
  destruct (stage_all_fresh tbl kas) as (_ & Hp & Hq).
  split; [done|]. rewrite Hq. split.
  - intros k a Hn Hl%last_value_elem.
    apply list_elem_of_In, filter_In. split; [by apply list_elem_of_In|].
    by apply bool_decide_eq_true_2.
  - intros k a [Hka Hn]%list_elem_of_In%filter_In.
    apply bool_decide_eq_true_1 in Hn. split; [done|].
    apply not_eq_None_Some. rewrite last_value_None. intros Hk. apply Hk.
    apply list_elem_of_fmap. exists (k, a). split; [done|].
    by apply list_elem_of_In.
Qed.

Lemma describes_stage_once (tbl : gmap K R) (kas : list (K * A)) :
  describes (λ k, first_value k kas) tbl
    (foldl (stage_once tbl) (∅, Table.fresh) kas).2.
Proof.
  destruct (stage_once_fresh tbl kas) as (_ & _ & Hp & Hq).
  split; [done|]. split.
  - intros k a Hn Hf. by apply Hq.
  - intros k a [Hn Hf]%Hq. split; [done|]. by eexists.
Qed.

End flush_staged.

(** ** The import loop *)

(** The loop either raises at the first row that does not parse, or stages
    every parsed row in turn. *)
Lemma loop_parse db st rows :
  for_each (import_row db) st rows =
  (ps ← parse_rows rows; Ok (foldl (stage_row db) st ps)).
Proof.
  revert st. induction rows as [|row rows IH]; intros st; simpl; [done|].
  change (import_row db st row) with (p ← parse_row row; Ok (stage_row db st p)).
  destruct (parse_row row) as [p|e]; simpl; [|done].
  rewrite IH. by destruct (parse_rows rows).
Qed.

Lemma parse_rows_length rows ps : parse_rows rows = Ok ps → List.length ps = List.length rows.
Proof.
  revert ps. induction rows as [|row rows IH]; intros ps; simpl.
  - by intros [= <-].
  - intros (p & _ & (ps' & Hps & [= <-])%bind_Ok)%bind_Ok. simpl.
    by rewrite (IH _ Hps).
Qed.

Lemma loop_row_count db st ps :
  row_count (foldl (stage_row db) st ps) = (row_count st + List.length ps)%nat.
Proof.
  revert st. induction ps as [|p ps IH]; intros st; simpl; [lia|].
  rewrite IH. unfold stage_row, upsert_link, upsert_symptom, upsert_business.
  simpl. repeat case_decide; simpl; lia.
Qed.

Lemma loop_businesses db st ps :
  let st' := foldl (stage_row db) st ps in
  (seen_businesses st', Session.s_businesses (db_session st')) =
  foldl (stage_once (businesses db))
    (seen_businesses st, Session.s_businesses (db_session st)) (business_of <$> ps).
Proof.
  revert st. induction ps as [|p ps IH]; intros st; simpl; [done|].
  rewrite IH. f_equal.
  unfold stage_row, upsert_link, upsert_symptom, upsert_business, stage_once.
  simpl. repeat case_decide; simpl; done.
Qed.

Lemma loop_symptoms db st ps :
  let st' := foldl (stage_row db) st ps in
  (seen_symptoms st', Session.s_symptoms (db_session st')) =
  foldl (stage_once (symptoms db))
    (seen_symptoms st, Session.s_symptoms (db_session st)) (symptom_of <$> ps).
Proof.
  revert st. induction ps as [|p ps IH]; intros st; simpl; [done|].
  rewrite IH. f_equal.
  unfold stage_row, upsert_link, upsert_symptom, upsert_business, stage_once.
  simpl. repeat case_decide; simpl; done.
Qed.

Lemma loop_links db st ps :
  Session.s_business_symptoms (db_session (foldl (stage_row db) st ps)) =
  stage_all (business_symptoms db)
    (Session.s_business_symptoms (db_session st)) (link_of <$> ps).
Proof.
  revert st. induction ps as [|p ps IH]; intros st; simpl; [done|].
  rewrite IH. unfold stage_all. f_equal.
  unfold stage_row, upsert_link, upsert_symptom, upsert_business.
  simpl. repeat case_decide; simpl; done.
Qed.

(** ** The import as a whole *)

(** The outcome of [Session.flush], table after table. *)
Lemma committed_eq engine_accepts utcnow s db :
  committed engine_accepts utcnow s db =
  (b ← outcome
         (Table.flush (λ id name, engine_accepts (Business id name)) (λ _, true)
            (λ _ name, name) (λ name, name) (λ _ name _, name)
            (businesses db) (Session.s_businesses s));
   c ← outcome
         (Table.flush (λ code name, engine_accepts (Symptom code name)) (λ _, true)
            (λ _ name, name) (λ name, name) (λ _ name _, name)
            (symptoms db) (Session.s_symptoms s));
   l ← outcome
         (Table.flush
            (λ k d, engine_accepts (BusinessSymptomLink k.1 k.2 d))
            (λ k, bool_decide (is_Some (b !! k.1)) && bool_decide (is_Some (c !! k.2)))
            (Session.link_inserted utcnow) diagnostic (Session.link_updated utcnow)
            (business_symptoms db) (Session.s_business_symptoms s));
   Ok {| businesses := b; symptoms := c; business_symptoms := l |}).
Proof.
  unfold committed, Session.flush.
  destruct (Table.flush _ _ _ _ _ (businesses db) _) as [b [eb|]]; [done|].
  unfold outcome at 2. simpl.
  destruct (Table.flush _ _ _ _ _ (symptoms db) _) as [c [ec|]]; [done|].
  unfold outcome at 2. simpl.
  by destruct (Table.flush _ _ _ _ _ (business_symptoms db) _) as [l [el|]].
Qed.

(** The request read for what it returns and persists: the exception of
    the loop or of the commit with the state before the request, or the
    response with the view the flush has reached. *)
Lemma import_unfold engine_accepts utcnow db records :
  import_business_symptoms engine_accepts utcnow db records =
  match
    st ← for_each (import_row db) loop_init (Csv.DictReader records);
    db' ← committed engine_accepts utcnow (db_session st) db;
    Ok (st, db')
  with
  | Ok (st, db') =>
      (Ok {| status := "import complete"; rows_processed := row_count st |}, db')
  | Raise e => (Raise e, db)
  end.
Proof.
  unfold import_business_symptoms, get_db, import_endpoint. simpl.
  destruct (for_each _ _ _) as [st|e]; simpl; [|done].
  unfold Session.commit, committed. simpl.
  by destruct (Session.flush _ _ _ _) as [v [e|]].
Qed.

Section import_facts.
Variable engine_accepts : instance → bool.

Lemma import_Ok utcnow db records out db' :
  import_business_symptoms engine_accepts utcnow db records = (Ok out, db') →
  ∃ ps, parse_rows (Csv.DictReader records) = Ok ps ∧
        out = {| status := "import complete"; rows_processed := List.length ps |} ∧
        committed engine_accepts utcnow
          (db_session (foldl (stage_row db) loop_init ps)) db = Ok db'.
Proof.
  rewrite import_unfold. rewrite loop_parse.
  destruct (parse_rows (Csv.DictReader records)) as [ps|e]; simpl; [|done].
  destruct (committed _ _ _ _) as [db1|e] eqn:Ec; simpl; [|done].
  intros [= <- <-]. exists ps. split; [done|]. split; [|done].
  by rewrite loop_row_count.
Qed.

Lemma commit_staged utcnow db ps db' :
  committed engine_accepts utcnow
    (db_session (foldl (stage_row db) loop_init ps)) db = Ok db' →
  (∀ b, businesses db' !! b = businesses_after db ps b) ∧
  (∀ c, symptoms db' !! c = symptoms_after db ps c) ∧
  (∀ k, business_symptoms db' !! k = links_after utcnow db ps k).
Proof.
  rewrite committed_eq.
  intros (b & Hb & (c & Hc & (l & Hl & [= <-])%bind_Ok)%bind_Ok)%bind_Ok.
  simpl. split; [|split].
  - intros k. unfold businesses_after.
    pose proof (loop_businesses db loop_init ps) as E. simpl in E.
    pose proof (describes_stage_once (businesses db) (business_of <$> ps)) as D.
    rewrite <- E in D. simpl in D.
    rewrite (flush_staged _ _ _ _ _ _ _ _ _ D Hb k). unfold stored.
    destruct (first_value k _) as [a|]; [|done].
    destruct (businesses db !! k) as [r|]; [|done].
    by destruct (decide (a = r)) as [->|].
  - intros k. unfold symptoms_after.
    pose proof (loop_symptoms db loop_init ps) as E. simpl in E.
    pose proof (describes_stage_once (symptoms db) (symptom_of <$> ps)) as D.
    rewrite <- E in D. simpl in D.
    rewrite (flush_staged _ _ _ _ _ _ _ _ _ D Hc k). unfold stored.
    destruct (first_value k _) as [a|]; [|done].
    destruct (symptoms db !! k) as [r|]; [|done].
    by destruct (decide (a = r)) as [->|].
  - intros k. unfold links_after.
    pose proof (describes_stage_all (business_symptoms db) (link_of <$> ps)) as D.
    change Table.fresh with (Session.s_business_symptoms (db_session loop_init)) in D.
    rewrite <- (loop_links db loop_init ps) in D.
    by rewrite (flush_staged _ _ _ _ _ _ _ _ _ D Hl k).
Qed.

End import_facts.

(** ** Businesses and symptoms repeated in a batch *)

(** C1, as stated, fails: business 1 appears as "Acme" and then as "Beta";
    the import succeeds, the last occurrence is "Beta", and the name stored
    is "Acme". *)
Lemma last_name_not_persisted :
  ∃ out db' ps,
    import_business_symptoms accept_all (clock_at 0) empty_db csv_two_names = (Ok out, db') ∧
    parse_rows (Csv.DictReader csv_two_names) = Ok ps ∧
    last_value 1 (business_of <$> ps) = Some "Beta" ∧
    businesses db' !! 1 = Some "Acme".
Proof.
  eexists _, _, _. split; [vm_compute; reflexivity|].
  split; [vm_compute; reflexivity|]. split; vm_compute; reflexivity.
Qed.

(** C1, amended: after an import that succeeds, the name stored for a
    business id of the batch is the name of the first row with that id, and
    the name stored for a symptom code of the batch is the name of the first
    row with that code. *)
Theorem first_name_persisted engine_accepts utcnow db records out db' ps :
  import_business_symptoms engine_accepts utcnow db records = (Ok out, db') →
  parse_rows (Csv.DictReader records) = Ok ps →
  (∀ b name, first_value b (business_of <$> ps) = Some name →
             businesses db' !! b = Some name) ∧
  (∀ c name, first_value c (symptom_of <$> ps) = Some name →
             symptoms db' !! c = Some name).
Proof.
  intros (ps' & Hps & _ & Hc)%import_Ok Hps'.
  rewrite Hps in Hps'. injection Hps' as ->.
  apply commit_staged in Hc as (Hb & Hs & _). split.
  - intros b name E. rewrite Hb. unfold businesses_after. by rewrite E.
  - intros c name E. rewrite Hs. unfold symptoms_after. by rewrite E.
Qed.

Lemma first_name_persisted_witness :
  businesses (import_business_symptoms accept_all (clock_at 0) empty_db csv_two_names).2 !! 1
    = Some "Acme" ∧
  symptoms (import_business_symptoms accept_all (clock_at 0) empty_db csv_two_names).2
    !! "SYMPT0002" = Some "Cough".
Proof.
  pose proof (first_name_persisted accept_all (clock_at 0) empty_db csv_two_names) as T.
  edestruct T as [Hb Hs].
  - vm_compute. reflexivity.
  - vm_compute. reflexivity.
  - split; [apply Hb | apply Hs]; vm_compute; reflexivity.
Defined.

(** ** Upsert of a link *)

(** C7, as stated, fails: the pair (1, SYMPT0001) is stored with the flag
    false, and the batch carries it twice, with the flag true and then with
    the flag false. The upsert of the first row meets a stored key with a
    different flag, yet after the import, which succeeds, the row has its
    flag, its [updated_at] and its [created_at] as before. *)
Lemma earlier_upsert_not_persisted :
  ∃ p ps db',
    parse_rows (Csv.DictReader csv_repeated_link) = Ok (p :: ps) ∧
    link_of p = ((1, "SYMPT0001"), true) ∧
    business_symptoms db_one_link !! (1, "SYMPT0001") =
      Some {| diagnostic := false; created_at := 5; updated_at := 7 |} ∧
    import_business_symptoms accept_all (clock_at 100) db_one_link
      csv_repeated_link =
      (Ok {| status := "import complete"; rows_processed := 2 |}, db') ∧
    business_symptoms db' !! (1, "SYMPT0001") =
      Some {| diagnostic := false; created_at := 5; updated_at := 7 |}.
Proof.
  eexists _, _, _. split; [vm_compute; reflexivity|].
  split; [reflexivity|]. split; [vm_compute; reflexivity|].
  split; vm_compute; reflexivity.
Qed.

(** C7, amended: after an import that succeeds, take a pair (business id,
    symptom code) of the batch and the flag [d] of its last row. If the pair
    was stored with another flag, the row has the flag [d], its [updated_at]
    is the reading of the clock taken for the update and its [created_at] is
    unchanged; if the pair was stored with the flag [d], the row is as it
    was; if the pair was not stored, a row with the flag [d] is stored, its
    [created_at] and its [updated_at] each the reading of the clock taken for
    the default of that column. *)
Theorem link_upsert engine_accepts utcnow db records out db' ps b c d :
  import_business_symptoms engine_accepts utcnow db records = (Ok out, db') →
  parse_rows (Csv.DictReader records) = Ok ps →
  last_value (b, c) (link_of <$> ps) = Some d →
  (∀ r, business_symptoms db !! (b, c) = Some r → diagnostic r ≠ d →
        business_symptoms db' !! (b, c) =
        Some {| diagnostic := d;
                created_at := created_at r;
                updated_at := utcnow (updated_onupdate (b, c)) |}) ∧
  (∀ r, business_symptoms db !! (b, c) = Some r → diagnostic r = d →
        business_symptoms db' !! (b, c) = Some r) ∧
  (business_symptoms db !! (b, c) = None →
        business_symptoms db' !! (b, c) =
        Some {| diagnostic := d;
                created_at := utcnow (created_default (b, c));
                updated_at := utcnow (updated_default (b, c)) |}).
Proof.
  intros (ps' & Hps & _ & Hc)%import_Ok Hps' Hd.
  rewrite Hps in Hps'. injection Hps' as ->.
  apply commit_staged in Hc as (_ & _ & Hl).
  rewrite Hl. unfold links_after. rewrite Hd. split; [|split].
  - intros r -> Hne. by rewrite decide_False by congruence.
  - intros r -> Heq. by rewrite decide_True by congruence.
  - by intros ->.
Qed.

Lemma link_upsert_witness :
  business_symptoms
    (import_business_symptoms accept_all (clock_from 100) db_one_link csv_one_link).2
    !! (1, "SYMPT0001")
  = Some {| diagnostic := true; created_at := 5; updated_at := 102 |} ∧
  business_symptoms
    (import_business_symptoms accept_all (clock_from 100) empty_db csv_one_link).2
    !! (1, "SYMPT0001")
  = Some {| diagnostic := true; created_at := 100; updated_at := 101 |}.
Proof.
  split.
  - pose proof (link_upsert accept_all (clock_from 100) db_one_link csv_one_link)
      as T.
    edestruct T with (b := 1) (c := "SYMPT0001") (d := true) as [Hu _].
    + vm_compute. reflexivity.
    + vm_compute. reflexivity.
    + vm_compute. reflexivity.
    + apply (Hu {| diagnostic := false; created_at := 5; updated_at := 7 |}).
      * vm_compute. reflexivity.
      * simpl. discriminate.
  - pose proof (link_upsert accept_all (clock_from 100) empty_db csv_one_link)
      as T.
    edestruct T with (b := 1) (c := "SYMPT0001") (d := true) as (_ & _ & Hi).
    + vm_compute. reflexivity.
    + vm_compute. reflexivity.
    + vm_compute. reflexivity.
    + apply Hi. vm_compute. reflexivity.
Defined.

(** C10: a pair that the store does not hold yet and that the batch carries
    twice. Both rows are merged, the session holds two pending instances with
    one primary key, and the commit is rejected: nothing is stored, so the
    flag of the last row is not. *)
Lemma repeated_new_link_rejected :
  import_business_symptoms accept_all (clock_at 0) empty_db csv_repeated_link
  = (Raise IntegrityError, empty_db) ∧
  Table.pending
    (Session.s_business_symptoms
       (db_session
          (foldl (stage_row empty_db) loop_init
             [ {| biz_id := 1; biz_name := "Acme"; sym_code := "SYMPT0001";
                  sym_name := "Fever"; diag := true |};
               {| biz_id := 1; biz_name := "Acme"; sym_code := "SYMPT0001";
                  sym_name := "Fever"; diag := false |} ])))
  = [((1, "SYMPT0001"), true); ((1, "SYMPT0001"), false)].
Proof. split; vm_compute; reflexivity. Qed.

(** ** One transaction per batch *)

Lemma inserts_Raise {K : Type} `{Countable K} {A R : Type}
    (accepts : K → A → bool) (references : K → bool) (inserted : K → A → R)
    (l : list (K * A)) (t : gmap K R) e :
  for_each (Table.exec_insert accepts references inserted) t l = Raise e →
  e = IntegrityError ∨ e = DataError.
Proof.
  revert t. induction l as [|ka l IH]; intros t; simpl; [done|].
  destruct (Table.exec_insert accepts references inserted t ka) as [t1|e1] eqn:E;
    simpl.
  - apply IH.
  - intros [= <-]. unfold Table.exec_insert in E.
    destruct (accepts ka.1 ka.2); simpl in E; [|injection E as <-; by right].
    destruct (references ka.1); simpl in E; [|injection E as <-; by left].
    destruct (t !! ka.1); [injection E as <-; by left|done].
Qed.

Lemma flush_Raise {K : Type} `{Countable K} {A R : Type} `{EqDecision A}
    (accepts : K → A → bool) (references : K → bool) (inserted : K → A → R)
    (current : R → A) (updated : K → A → R → R) (tbl : gmap K R) ts e :
  outcome (Table.flush accepts references inserted current updated tbl ts) = Raise e →
  e = IntegrityError ∨ e = DataError.
Proof.
  rewrite flush_outcome. destruct (Table.updates_ok _ _ _ _).
  - apply inserts_Raise.
  - intros [= <-]. by right.
Qed.

Lemma commit_Raise engine_accepts utcnow s db e :
  committed engine_accepts utcnow s db = Raise e →
  e = IntegrityError ∨ e = DataError.
Proof.
  rewrite committed_eq.
  destruct (outcome (Table.flush _ _ _ _ _ (businesses db) _)) as [b|e1] eqn:Eb; simpl;
    [|intros [= <-]; by eapply flush_Raise].
  destruct (outcome (Table.flush _ _ _ _ _ (symptoms db) _)) as [c|e2] eqn:Es; simpl;
    [|intros [= <-]; by eapply flush_Raise].
  destruct (outcome (Table.flush _ _ _ _ _ (business_symptoms db) _)) as [l|e3] eqn:El; simpl;
    [done|intros [= <-]; by eapply flush_Raise].
Qed.

(** C3: the upserts of all rows reach the database in the one [commit]
    after the loop, in one transaction. Take an import whose loop has ended
    in state [st], and the flush of its session on the persisted state: the
    view [w] its statements have written, and the exception [err] of the
    statement the engine has refused, if any. If a statement was refused, the
    import fails with the engine's exception, an IntegrityError or a
    DataError, and the persisted state is the one before the import,
    whatever the statements before the refused one have written to [w]; if
    none was refused, the import succeeds and the persisted state is [w]. *)
Theorem commit_all_or_nothing engine_accepts utcnow db records st w err :
  for_each (import_row db) loop_init (Csv.DictReader records) = Ok st →
  Session.flush engine_accepts utcnow (db_session st) db = (w, err) →
  match err with
  | Some e =>
      import_business_symptoms engine_accepts utcnow db records = (Raise e, db) ∧
      (e = IntegrityError ∨ e = DataError)
  | None =>
      import_business_symptoms engine_accepts utcnow db records =
      (Ok {| status := "import complete"; rows_processed := row_count st |}, w)
  end.
Proof.
  intros Hloop Hflush.
  unfold import_business_symptoms, get_db, import_endpoint. simpl.
  rewrite Hloop. unfold Session.commit. simpl. rewrite Hflush.
  destruct err as [e|]; simpl; [|done]. split; [done|].
  apply (commit_Raise engine_accepts utcnow (db_session st) db).
  unfold committed. by rewrite Hflush.
Qed.

Lemma commit_all_or_nothing_witness :
  ∃ st w,
    for_each (import_row empty_db) loop_init (Csv.DictReader csv_repeated_link)
      = Ok st ∧
    Session.flush accept_all (clock_at 0) (db_session st) empty_db
      = (w, Some IntegrityError) ∧
    businesses w !! 1 = Some "Acme" ∧
    business_symptoms w !! (1, "SYMPT0001")
      = Some {| diagnostic := true; created_at := 0; updated_at := 0 |} ∧
    import_business_symptoms accept_all (clock_at 0) empty_db csv_repeated_link
      = (Raise IntegrityError, empty_db).
Proof.
  eexists _, _.
  split; [vm_compute; reflexivity|].
  split; [vm_compute; reflexivity|].
  split; [vm_compute; reflexivity|].
  split; [vm_compute; reflexivity|].
  refine (proj1 (commit_all_or_nothing accept_all (clock_at 0) empty_db
                   csv_repeated_link _ _ (Some IntegrityError) _ _));
    vm_compute; reflexivity.
Defined.

(** ** The count of rows *)

Lemma DictReader_length records :
  List.length (Csv.DictReader records) = List.length (Csv.data_records records).
Proof. destruct records as [|h rest]; [done|]. simpl. by rewrite length_fmap. Qed.

Lemma flush_fresh {K : Type} `{Countable K} {A R : Type} `{EqDecision A}
    (accepts : K → A → bool) (references : K → bool) (inserted : K → A → R)
    (current : R → A) (updated : K → A → R → R) (tbl : gmap K R) :
  outcome (Table.flush accepts references inserted current updated tbl Table.fresh) = Ok tbl.
Proof.
  apply flush_clean; [done|]. intros k a r Ha. simpl in Ha.
  by rewrite lookup_empty in Ha.
Qed.

Lemma commit_fresh engine_accepts utcnow db :
  committed engine_accepts utcnow Session.fresh db = Ok db.
Proof.
  rewrite committed_eq. simpl. rewrite !flush_fresh. simpl.
  rewrite flush_fresh. simpl. by destruct db.
Qed.

(** C9: the count an import returns is the number of data rows of its
    input, the records after the header that are not blank, and its status is
    "import complete"; an input with no data row is imported with a count of
    zero, and the store is left as it was. *)
Theorem rows_processed_is_row_count engine_accepts utcnow db records :
  (∀ out db',
     import_business_symptoms engine_accepts utcnow db records = (Ok out, db') →
     status out = "import complete" ∧
     rows_processed out = List.length (Csv.data_records records)) ∧
  (Csv.data_records records = [] →
     import_business_symptoms engine_accepts utcnow db records =
     (Ok {| status := "import complete"; rows_processed := 0 |}, db)).
Proof.
  split.
  - intros out db' (ps & Hps & -> & _)%import_Ok. simpl. split; [done|].
    by rewrite (parse_rows_length _ _ Hps), DictReader_length.
  - intros Hnil. rewrite import_unfold.
    assert (Csv.DictReader records = []) as ->.
    { destruct records as [|h rest]; [done|]. simpl. by rewrite Hnil. }
    simpl. by rewrite commit_fresh.
Qed.

Lemma rows_processed_is_row_count_witness :
  import_business_symptoms accept_all (clock_at 0) db_one_link [columns; []; []]
  = (Ok {| status := "import complete"; rows_processed := 0 |}, db_one_link) ∧
  ∃ db', import_business_symptoms accept_all (clock_at 0) empty_db csv_two_names
         = (Ok {| status := "import complete"; rows_processed := 2 |}, db').
Proof.
  split.
  - apply (rows_processed_is_row_count accept_all (clock_at 0) db_one_link [columns; []; []]).
    reflexivity.
  - destruct (import_business_symptoms accept_all (clock_at 0) empty_db csv_two_names)
      as [[out|e] db'] eqn:E; [|by vm_compute in E].
    destruct (proj1 (rows_processed_is_row_count accept_all (clock_at 0) empty_db
      csv_two_names) out db' E) as [Hs Hn].
    exists db'. destruct out as [s n]. simpl in *. by rewrite Hs, Hn.
Defined.

(** ** Importing twice *)

(** A session whose staged values are all stored already has nothing to
    flush. *)
Lemma flush_again {K : Type} `{Countable K} {A R : Type} `{EqDecision A}
    (accepts : K → A → bool) (references : K → bool) (inserted : K → A → R)
    (current : R → A) (updated : K → A → R → R)
    (staged : K → option A) (tbl : gmap K R) ts :
  describes staged tbl ts →
  (∀ k a, staged k = Some a → ∃ r, tbl !! k = Some r ∧ a = current r) →
  outcome (Table.flush accepts references inserted current updated tbl ts) = Ok tbl.
Proof.
  intros (Hp & _ & Hout) Hs. apply flush_clean.
  - destruct (Table.pending ts) as [|[k a] l] eqn:E; [done|]. exfalso.
    destruct (Hout k a) as [Hn [a' Ha']]; [rewrite ?E; left|].
    destruct (Hs _ _ Ha') as (r & Hr & _). congruence.
  - intros k a r Ha Hr. rewrite Hp, Hr in Ha.
    destruct (Hs _ _ Ha) as (r' & Hr' & ->). congruence.
Qed.

Lemma commit_again engine_accepts utcnow1 utcnow2 db ps db1 :
  committed engine_accepts utcnow1
    (db_session (foldl (stage_row db) loop_init ps)) db = Ok db1 →
  committed engine_accepts utcnow2
    (db_session (foldl (stage_row db1) loop_init ps)) db1 = Ok db1.
Proof.
  intros (Hb & Hs & Hl)%commit_staged. rewrite committed_eq.
  pose proof (loop_businesses db1 loop_init ps) as Eb. simpl in Eb.
  pose proof (describes_stage_once (businesses db1) (business_of <$> ps)) as Db.
  rewrite <- Eb in Db. simpl in Db.
  rewrite (flush_again _ _ _ _ _ _ _ _ Db); simpl.
  2:{ intros k a Ha. exists a. split; [|done].
      rewrite Hb. unfold businesses_after. by rewrite Ha. }
  pose proof (loop_symptoms db1 loop_init ps) as Es. simpl in Es.
  pose proof (describes_stage_once (symptoms db1) (symptom_of <$> ps)) as Ds.
  rewrite <- Es in Ds. simpl in Ds.
  rewrite (flush_again _ _ _ _ _ _ _ _ Ds); simpl.
  2:{ intros k a Ha. exists a. split; [|done].
      rewrite Hs. unfold symptoms_after. by rewrite Ha. }
  pose proof (describes_stage_all (business_symptoms db1) (link_of <$> ps)) as Dl.
  change Table.fresh with (Session.s_business_symptoms (db_session loop_init)) in Dl.
  rewrite <- (loop_links db1 loop_init ps) in Dl.
  rewrite (flush_again _ _ _ _ _ _ _ _ Dl); simpl.
  2:{ intros k d Hd. rewrite Hl. unfold links_after. rewrite Hd.
      destruct (business_symptoms db !! k) as [r|]; [|by eexists].
      destruct (decide (d = diagnostic r)) as [->|]; by eexists. }
  by destruct db1.
Qed.

(** Whether a commit is accepted does not depend on the clock. *)
Lemma commit_same_outcome engine_accepts utcnow1 utcnow2 s db e :
  committed engine_accepts utcnow1 s db = Raise e →
  committed engine_accepts utcnow2 s db = Raise e.
Proof.
  rewrite !committed_eq.
  destruct (outcome (Table.flush _ _ _ _ _ (businesses db) _)) as [b|e1]; simpl; [|done].
  destruct (outcome (Table.flush _ _ _ _ _ (symptoms db) _)) as [c|e2]; simpl; [|done].
  rewrite !flush_outcome. destruct (Table.updates_ok _ _ _ _); simpl; [|done].
  match goal with
  | |- context [for_each (Table.exec_insert ?acc ?refs _) _ ?l] =>
      pose proof (inserts_same_outcome acc refs
        (Session.link_inserted utcnow1) (Session.link_inserted utcnow2) l
        (Table.updated_table diagnostic (Session.link_updated utcnow1)
           (business_symptoms db) (Session.s_business_symptoms s))
        (Table.updated_table diagnostic (Session.link_updated utcnow2)
           (business_symptoms db) (Session.s_business_symptoms s)))
        as Hsame
  end.
  destruct (for_each _ _ _) as [l1|e1]; simpl; [done|].
  destruct (for_each _ _ _) as [l2|e2]; simpl.
  - exfalso. apply Hsame. intros k. rewrite !lookup_updated_table.
    destruct (Table.persistent _ !! k) as [d|], (business_symptoms db !! k) as [r|];
      simpl; try done.
    by destruct (decide (d = diagnostic r)).
  - intros [= <-]. f_equal. symmetry. apply Hsame. intros k.
    rewrite !lookup_updated_table.
    destruct (Table.persistent _ !! k) as [d|], (business_symptoms db !! k) as [r|];
      simpl; try done.
    by destruct (decide (d = diagnostic r)).
Qed.

(** C5: importing the same input a second time, at any later reading of the
    clock, returns what the first import returned and leaves the persisted
    state the first import left; every query then answers as it did after
    the first import. *)
Theorem import_twice engine_accepts utcnow1 utcnow2 db records :
  let first := import_business_symptoms engine_accepts utcnow1 db records in
  let second := import_business_symptoms engine_accepts utcnow2 first.2 records in
  second = first ∧
  ∀ business_id diag,
    read_business_symptoms second.2 business_id diag =
    read_business_symptoms first.2 business_id diag.
Proof.
  simpl.
  assert (import_business_symptoms engine_accepts utcnow2
            (import_business_symptoms engine_accepts utcnow1 db records).2 records =
          import_business_symptoms engine_accepts utcnow1 db records) as E.
  { rewrite (import_unfold _ utcnow1 db). rewrite loop_parse.
    destruct (parse_rows (Csv.DictReader records)) as [ps|e] eqn:Hps; simpl.
    - destruct (committed engine_accepts utcnow1 _ db) as [db1|e] eqn:Hc; simpl.
      + rewrite import_unfold. rewrite loop_parse, Hps. simpl.
        rewrite (commit_again _ _ _ _ _ _ Hc). simpl.
        by rewrite !loop_row_count.
      + rewrite import_unfold. rewrite loop_parse, Hps. simpl.
        by rewrite (commit_same_outcome _ _ utcnow2 _ _ _ Hc).
    - rewrite import_unfold. rewrite loop_parse, Hps. done. }
  split; [done|]. intros business_id diag. by rewrite E.
Qed.

(** ** The query *)

Lemma elem_of_query_join db bs :
  bs ∈ query_join db ↔
  ∃ k r bn sn,
    business_symptoms db !! k = Some r ∧
    businesses db !! k.1 = Some bn ∧ symptoms db !! k.2 = Some sn ∧
    bs = {| j_key := k; j_link := r; j_business := bn; j_symptom := sn |}.
Proof.
  unfold query_join. rewrite list_elem_of_omap. split.
  - intros ([k r] & Hin%elem_of_map_to_list & Hj). unfold join_link in Hj.
    simpl in Hj. exists k, r.
    destruct (businesses db !! k.1) as [bn|]; [|done].
    destruct (symptoms db !! k.2) as [sn|]; [|done].
    exists bn, sn. by injection Hj as <-.
  - intros (k & r & bn & sn & Hl & Hb & Hs & ->). exists (k, r). split.
    + by apply elem_of_map_to_list.
    + unfold join_link. simpl. by rewrite Hb, Hs.
Qed.

Lemma query_join_key db x y :
  x ∈ query_join db → y ∈ query_join db → j_key x = j_key y → x = y.
Proof.
  intros (k & r & bn & sn & Hl & Hb & Hs & ->)%elem_of_query_join
         (k' & r' & bn' & sn' & Hl' & Hb' & Hs' & ->)%elem_of_query_join.
  simpl. intros <-. congruence.
Qed.

Lemma NoDup_omap_inj {X Y : Type} (f : X → option Y) (l : list X) :
  (∀ x y z, x ∈ l → y ∈ l → f x = Some z → f y = Some z → x = y) →
  NoDup l → NoDup (omap f l).
Proof.
  intros Hinj Hnd. induction Hnd as [|x l Hx Hnd IH]; simpl; [constructor|].
  assert (NoDup (omap f l)) as IH'.
  { apply IH. intros a b z Ha Hb. apply Hinj; by right. }
  destruct (f x) as [z|] eqn:E; [|done].
  constructor; [|done].
  intros (y & Hy & Hfy)%list_elem_of_omap.
  assert (x = y) as -> by (eapply Hinj; [left|by right|done..]).
  done.
Qed.

Lemma NoDup_query_join db : NoDup (query_join db).
Proof.
  apply NoDup_omap_inj; [|apply NoDup_map_to_list].
  intros [k r] [k' r'] z _ _ H1 H2. unfold join_link in *. simpl in *.
  destruct (businesses db !! k.1), (symptoms db !! k.2); try done.
  destruct (businesses db !! k'.1), (symptoms db !! k'.2); try done.
  injection H1 as <-. by injection H2 as <- <-.
Qed.

(** The rows [query.all()] returns: the rows of the join the filters keep,
    each once. *)
Lemma read_results db business_id diag :
  ∃ results,
    (∀ bs, bs ∈ results ↔
           bs ∈ query_join db ∧ selected business_id diag (j_key bs) (j_link bs)) ∧
    NoDup results ∧
    read_business_symptoms db business_id diag =
    match results with
    | [] => Raise (HTTPException 404 "No business-symptom data found")
    | _ => Ok (to_out <$> results)
    end.
Proof.
  unfold read_business_symptoms. eexists. split; [|split; [|reflexivity]].
  - intros bs. unfold selected.
    destruct business_id as [b|], diag as [d|];
      rewrite ?list_elem_of_In, ?filter_In, ?bool_decide_eq_true,
        <- ?list_elem_of_In; naive_solver.
  - pose proof (NoDup_query_join db) as Hnd.
    destruct business_id as [b|], diag as [d|];
      rewrite ?NoDup_ListNoDup in *; repeat apply List.NoDup_filter; done.
Qed.

(** C4: when no row of the join passes the filters, the query raises the
    404 exception; it does not return an empty list. *)
Theorem no_match_not_found db business_id diag :
  (∀ k r bn sn,
     business_symptoms db !! k = Some r →
     businesses db !! k.1 = Some bn → symptoms db !! k.2 = Some sn →
     ¬ selected business_id diag k r) →
  read_business_symptoms db business_id diag =
  Raise (HTTPException 404 "No business-symptom data found").
Proof.
  intros Hnone.
  destruct (read_results db business_id diag) as (results & Hin & _ & ->).
  destruct results as [|bs l]; [done|]. exfalso.
  destruct (proj1 (Hin bs)) as [Hj Hsel]; [left|].
  apply elem_of_query_join in Hj as (k & r & bn & sn & Hl & Hb & Hs & ->).
  by eapply Hnone.
Qed.

Lemma no_match_not_found_witness :
  read_business_symptoms db_one_link (Some 99) None =
  Raise (HTTPException 404 "No business-symptom data found").
Proof.
  apply no_match_not_found.
  intros k r bn sn Hl _ _ [Hb _].
  unfold db_one_link in Hl. simpl in Hl.
  apply lookup_singleton_Some in Hl as [<- _].
  specialize (Hb 99 eq_refl). simpl in Hb. discriminate Hb.
Defined.

(** C6: the rows a query returns are the links that have their business and
    their symptom and that pass every filter given, each once, with the two
    names and the stored flag. So a row returned under a [diagnostic] filter
    carries that flag, and a row returned under a [business_id] filter
    carries that id. *)
Theorem query_returns_selected db business_id diag outs :
  read_business_symptoms db business_id diag = Ok outs →
  (∀ o, o ∈ outs ↔
        ∃ k r bn sn,
          business_symptoms db !! k = Some r ∧
          businesses db !! k.1 = Some bn ∧ symptoms db !! k.2 = Some sn ∧
          selected business_id diag k r ∧
          o = {| BusinessSymptomOut.business_id := k.1;
                 BusinessSymptomOut.business_name := bn;
                 BusinessSymptomOut.symptom_code := k.2;
                 BusinessSymptomOut.symptom_name := sn;
                 BusinessSymptomOut.diagnostic := diagnostic r |}) ∧
  NoDup outs ∧
  (∀ o d, o ∈ outs → diag = Some d → BusinessSymptomOut.diagnostic o = d) ∧
  (∀ o b, o ∈ outs → business_id = Some b → BusinessSymptomOut.business_id o = b).
Proof.
  destruct (read_results db business_id diag) as (results & Hin & Hnd & ->).
  intros Hok.
  assert (outs = to_out <$> results) as ->.
  { destruct results; [done|]. by injection Hok as <-. }
  clear Hok.
  assert (Hchar : ∀ o, o ∈ to_out <$> results ↔
        ∃ k r bn sn,
          business_symptoms db !! k = Some r ∧
          businesses db !! k.1 = Some bn ∧ symptoms db !! k.2 = Some sn ∧
          selected business_id diag k r ∧
          o = {| BusinessSymptomOut.business_id := k.1;
                 BusinessSymptomOut.business_name := bn;
                 BusinessSymptomOut.symptom_code := k.2;
                 BusinessSymptomOut.symptom_name := sn;
                 BusinessSymptomOut.diagnostic := diagnostic r |}).
  { intros o. rewrite list_elem_of_fmap. split.
    - intros (bs & -> & [Hj Hsel]%Hin).
      apply elem_of_query_join in Hj as (k & r & bn & sn & Hl & Hb & Hs & ->).
      by exists k, r, bn, sn.
    - intros (k & r & bn & sn & Hl & Hb & Hs & Hsel & ->).
      exists {| j_key := k; j_link := r; j_business := bn; j_symptom := sn |}.
      split; [done|]. apply Hin. split; [|done].
      apply elem_of_query_join. by exists k, r, bn, sn. }
  split; [done|]. split; [|split].
  - apply NoDup_fmap_2_strong; [|done].
    intros x y [Hx _]%Hin [Hy _]%Hin Heq.
    apply (query_join_key db); [done..|].
    destruct (j_key x) as [b c] eqn:Ex, (j_key y) as [b' c'] eqn:Ey.
    unfold to_out in Heq. rewrite Ex, Ey in Heq. simpl in Heq. congruence.
  - intros o d (k & r & bn & sn & _ & _ & _ & [_ Hd] & ->)%Hchar ->. simpl.
    by apply Hd.
  - intros o b (k & r & bn & sn & _ & _ & _ & [Hb _] & ->)%Hchar ->. simpl.
    by apply Hb.
Qed.

Lemma query_returns_selected_witness :
  read_business_symptoms db_one_link (Some 1) (Some false) =
  Ok [ {| BusinessSymptomOut.business_id := 1;
          BusinessSymptomOut.business_name := "Acme";
          BusinessSymptomOut.symptom_code := "SYMPT0001";
          BusinessSymptomOut.symptom_name := "Fever";
          BusinessSymptomOut.diagnostic := false |} ] ∧
  NoDup [ {| BusinessSymptomOut.business_id := 1;
             BusinessSymptomOut.business_name := "Acme";
             BusinessSymptomOut.symptom_code := "SYMPT0001";
             BusinessSymptomOut.symptom_name := "Fever";
             BusinessSymptomOut.diagnostic := false |} ].
Proof.
  assert (read_business_symptoms db_one_link (Some 1) (Some false) =
          Ok [ {| BusinessSymptomOut.business_id := 1;
                  BusinessSymptomOut.business_name := "Acme";
                  BusinessSymptomOut.symptom_code := "SYMPT0001";
                  BusinessSymptomOut.symptom_name := "Fever";
                  BusinessSymptomOut.diagnostic := false |} ]) as E.
  { vm_compute. reflexivity. }
  split; [exact E|].
  exact (proj1 (proj2 (query_returns_selected db_one_link (Some 1) (Some false) _ E))).
Defined.

(** ** Rows that do not parse *)

Lemma zip_row_other fieldnames fields d col :
  col ∉ fieldnames → Csv.zip_row fieldnames fields d !! col = d !! col.
Proof.
  revert fields d. induction fieldnames as [|f fs IH]; intros fields d Hn; [done|].
  apply not_elem_of_cons in Hn as [Hne Hn]. simpl.
  destruct fields as [|v vs]; rewrite IH by done; by apply lookup_insert_ne.
Qed.

Lemma getitem_Raise row key e : getitem row key = Raise e → e = KeyError.
Proof. unfold getitem. destruct (row !! key); [done|]. by intros [= <-]. Qed.

Lemma int_Raise v e : int v = Raise e → e = TypeError ∨ e = ValueError.
Proof.
  unfold int. destruct v as [s|]; [|intros [= <-]; by left].
  destruct (Str.int s); [done|]. intros [= <-]. by right.
Qed.

Lemma strip_Raise v e : strip v = Raise e → e = AttributeError.
Proof. unfold strip. destruct v; [done|]. by intros [= <-]. Qed.

Lemma parse_row_Raise row e : parse_row row = Raise e → row_error e.
Proof.
  unfold parse_row, row_error.
  repeat match goal with
  | |- context [getitem row ?k] =>
      let E := fresh "E" in
      destruct (getitem row k) as [?|?] eqn:E; simpl;
      [|intros [= <-]; apply getitem_Raise in E; tauto]
  | |- context [int ?v] =>
      let E := fresh "E" in
      destruct (int v) as [?|?] eqn:E; simpl;
      [|intros [= <-]; apply int_Raise in E; tauto]
  | |- context [strip ?v] =>
      let E := fresh "E" in
      destruct (strip v) as [?|?] eqn:E; simpl;
      [|intros [= <-]; apply strip_Raise in E; tauto]
  end.
  done.
Qed.

(** A row that parses has its five columns, and an identifier [int] reads. *)
Lemma parse_row_Ok row p :
  parse_row row = Ok p →
  (∀ col, col ∈ columns → is_Some (row !! col)) ∧
  (∃ v, row !! "Business ID" = Some v ∧ int v = Ok (biz_id p)).
Proof.
  unfold parse_row.
  intros (v1 & H1 & (z & Hz & (v2 & H2 & (n1 & _ & (v3 & H3 & (c & _ &
    (v4 & H4 & (n2 & _ & (v5 & H5 & (d & _ & [= <-])%bind_Ok)%bind_Ok)%bind_Ok
    )%bind_Ok)%bind_Ok)%bind_Ok)%bind_Ok)%bind_Ok)%bind_Ok)%bind_Ok.
  assert (G : ∀ k v, getitem row k = Ok v → row !! k = Some v).
  { intros k v. unfold getitem. destruct (row !! k); [by intros [= ->]|done]. }
  apply G in H1, H2, H3, H4, H5. split.
  - intros col Hcol. unfold columns in Hcol.
    repeat (apply elem_of_cons in Hcol as [->|Hcol]; [by eexists|]).
    by apply elem_of_nil in Hcol.
  - exists v1. by split.
Qed.

Lemma parse_rows_Raise rows e : parse_rows rows = Raise e → row_error e.
Proof.
  induction rows as [|row rows IH]; simpl; [done|].
  destruct (parse_row row) as [p|e1] eqn:E; simpl.
  - destruct (parse_rows rows) as [ps|e2]; simpl; [done|].
    intros [= <-]. by apply IH.
  - intros [= <-]. by eapply parse_row_Raise.
Qed.

Lemma parse_rows_bad_row rows row :
  row ∈ rows → (∀ p, parse_row row ≠ Ok p) → ∃ e, parse_rows rows = Raise e.
Proof.
  intros Hin Hbad. induction rows as [|r rows IH]; [by apply elem_of_nil in Hin|].
  simpl. destruct (parse_row r) as [p|e] eqn:E; simpl; [|by eexists].
  apply elem_of_cons in Hin as [->|Hin]; [by destruct (Hbad p)|].
  destruct (IH Hin) as [e ->]. by eexists.
Qed.

Lemma getitem_Ok row key v : getitem row key = Ok v → row !! key = Some v.
Proof. unfold getitem. destruct (row !! key); [by intros [= ->]|done]. Qed.

Lemma int_Ok v z : int v = Ok z → ∃ s, v = Some s ∧ Str.int s = Some z.
Proof.
  unfold int. destruct v as [s|]; [|done].
  destruct (Str.int s) as [z'|] eqn:E; [|done]. intros [= <-]. by exists s.
Qed.

Lemma strip_Ok v t : strip v = Ok t → ∃ s, v = Some s ∧ t = Str.strip s.
Proof. unfold strip. destruct v as [s|]; [|done]. intros [= <-]. by exists s. Qed.

(** The five fields a parsed row was read from. *)
Lemma parse_row_inv row p :
  parse_row row = Ok p →
  ∃ s1 s2 s3 s4 s5,
    row !! "Business ID" = Some (Some s1) ∧ Str.int s1 = Some (biz_id p) ∧
    row !! "Business Name" = Some (Some s2) ∧ biz_name p = Str.strip s2 ∧
    row !! "Symptom Code" = Some (Some s3) ∧ sym_code p = Str.strip s3 ∧
    row !! "Symptom Name" = Some (Some s4) ∧ sym_name p = Str.strip s4 ∧
    row !! "Symptom Diagnostic" = Some (Some s5) ∧ diag p = truthy (Str.strip s5).
Proof.
  unfold parse_row.
  intros (v1 & H1%getitem_Ok & (z & (s1 & -> & Hz)%int_Ok &
    (v2 & H2%getitem_Ok & (n1 & (s2 & -> & ->)%strip_Ok &
    (v3 & H3%getitem_Ok & (c & (s3 & -> & ->)%strip_Ok &
    (v4 & H4%getitem_Ok & (n2 & (s4 & -> & ->)%strip_Ok &
    (v5 & H5%getitem_Ok & (d & (s5 & -> & ->)%strip_Ok & [= <-])%bind_Ok
    )%bind_Ok)%bind_Ok)%bind_Ok)%bind_Ok)%bind_Ok)%bind_Ok)%bind_Ok)%bind_Ok
    )%bind_Ok.
  exists s1, s2, s3, s4, s5. simpl. done.
Qed.

Lemma parse_row_fields row s1 s2 s3 s4 s5 z :
  row !! "Business ID" = Some (Some s1) → Str.int s1 = Some z →
  row !! "Business Name" = Some (Some s2) →
  row !! "Symptom Code" = Some (Some s3) →
  row !! "Symptom Name" = Some (Some s4) →
  row !! "Symptom Diagnostic" = Some (Some s5) →
  parse_row row =
  Ok {| biz_id := z; biz_name := Str.strip s2; sym_code := Str.strip s3;
        sym_name := Str.strip s4; diag := truthy (Str.strip s5) |}.
Proof.
  intros H1 Hz H2 H3 H4 H5. unfold parse_row, getitem.
  rewrite H1, H2, H3, H4, H5. simpl. by rewrite Hz.
Qed.

(** C2, as stated, fails: a file made of a header that lacks three of the
    expected columns, with no data row, is imported without error. *)
Lemma header_only_accepted :
  "Symptom Code" ∈ columns ∧
  ("Symptom Code" ∉ ["Business ID"; "Business Name"]) ∧
  import_business_symptoms accept_all (clock_at 0) empty_db [["Business ID"; "Business Name"]]
  = (Ok {| status := "import complete"; rows_processed := 0 |}, empty_db).
Proof.
  split; [|split].
  - unfold columns. set_solver.
  - intros H. repeat (apply elem_of_cons in H as [H|H]; [discriminate H|]).
    by apply elem_of_nil in H.
  - vm_compute. reflexivity.
Qed.

(** C2, amended: an import whose input has a data row with a non-numeric
    business identifier, or has at least one data row under a header that
    lacks an expected column, fails with the exception of the first row that
    does not parse (KeyError, TypeError, ValueError or AttributeError), and
    the persisted state is the one before the import. *)
Theorem malformed_input_aborts engine_accepts utcnow db records :
  (∃ row, row ∈ Csv.DictReader records ∧ non_numeric_id row) ∨
  (∃ col, col ∈ columns ∧ (col ∉ default [] (head records)) ∧
          Csv.data_records records ≠ []) →
  ∃ e, row_error e ∧
       import_business_symptoms engine_accepts utcnow db records = (Raise e, db).
Proof.
  intros Hbad.
  assert (∃ row, row ∈ Csv.DictReader records ∧ ∀ p, parse_row row ≠ Ok p)
    as (row & Hin & Hrow).
  { destruct Hbad as [(row & Hin & v & Hv & Hint)|(col & Hcol & Hmiss & Hrows)].
    - exists row. split; [done|]. intros p (_ & v' & Hv' & Hz)%parse_row_Ok.
      rewrite Hv in Hv'. injection Hv' as <-. by eapply Hint.
    - destruct records as [|fieldnames rest]; [done|]. simpl in Hmiss.
      unfold Csv.DictReader.
      destruct (Csv.data_records (fieldnames :: rest)) as [|r rs]; [done|].
      exists (Csv.zip_row fieldnames r ∅). split; [left|].
      intros p (Hall & _)%parse_row_Ok. destruct (Hall col Hcol) as [v Hv].
      rewrite zip_row_other, lookup_empty in Hv by done. done. }
  destruct (parse_rows_bad_row _ _ Hin Hrow) as [e He].
  exists e. split; [by eapply parse_rows_Raise|].
  rewrite import_unfold. by rewrite loop_parse, He.
Qed.

Lemma malformed_input_aborts_witness :
  ∃ e, row_error e ∧
       import_business_symptoms accept_all (clock_at 0) db_one_link
         [columns; ["1"; "Acme"; "SYMPT0001"; "Fever"; "true"];
                   ["x2"; "Beta"; "SYMPT0002"; "Cough"; "no"]]
       = (Raise e, db_one_link).
Proof.
  apply malformed_input_aborts. left.
  exists (Csv.zip_row columns ["x2"; "Beta"; "SYMPT0002"; "Cough"; "no"] ∅).
  split.
  - simpl. right. left.
  - exists (Some "x2"). split; [vm_compute; reflexivity|].
    intros z. vm_compute. discriminate.
Defined.

(** ** The diagnostic flag *)

Lemma append_nil (x : string) : EmptyString ++ x = x.
Proof. reflexivity. Qed.

Lemma append_cons c (l x : string) : String c l ++ x = String c (l ++ x).
Proof. reflexivity. Qed.

Lemma append_nil_r (x : string) : x ++ EmptyString = x.
Proof. induction x as [|c x IH]; [done|]. by rewrite append_cons, IH. Qed.

Lemma append_assoc (x y z : string) : (x ++ y) ++ z = x ++ (y ++ z).
Proof. induction x as [|c x IH]; [done|]. by rewrite !append_cons, IH. Qed.

Lemma join_app (a b : list string) :
  Str.join (a ++ b)%list = Str.join a ++ Str.join b.
Proof.
  induction a as [|c a IH]; [done|].
  change (Str.join ((c :: a) ++ b)%list) with (c ++ Str.join (a ++ b)%list).
  change (Str.join (c :: a)) with (c ++ Str.join a).
  by rewrite IH, append_assoc.
Qed.

(** The table of the interpreter holds the white space of Unicode. *)
Lemma white_table cp : white cp ↔ cp ∈ Unicode.whitespace.
Proof.
  split.
  - unfold white. intros H.
    assert ((cp = 0x9 ∨ cp = 0xA ∨ cp = 0xB ∨ cp = 0xC ∨ cp = 0xD) ∨
            (cp = 0x1C ∨ cp = 0x1D ∨ cp = 0x1E ∨ cp = 0x1F ∨ cp = 0x20) ∨
            (cp = 0x85 ∨ cp = 0xA0 ∨ cp = 0x1680) ∨
            (cp = 0x2000 ∨ cp = 0x2001 ∨ cp = 0x2002 ∨ cp = 0x2003 ∨
             cp = 0x2004 ∨ cp = 0x2005) ∨
            (cp = 0x2006 ∨ cp = 0x2007 ∨ cp = 0x2008 ∨ cp = 0x2009 ∨
             cp = 0x200A) ∨
            (cp = 0x2028 ∨ cp = 0x2029 ∨ cp = 0x202F ∨ cp = 0x205F ∨
             cp = 0x3000))%N as Hc by lia.
    clear H. unfold Unicode.whitespace.
    repeat (destruct Hc as [Hc|Hc]); subst cp;
      refine (bool_decide_unpack _ _); vm_compute; exact I.
  - intros Hin. unfold Unicode.whitespace in Hin.
    repeat (apply elem_of_cons in Hin as [->|Hin]; [unfold white; lia|]).
    by apply elem_of_nil in Hin.
Qed.

(** A white space character is one character of the text, and [isspace]
    accepts it. *)
Lemma chars_white cp x :
  white cp → Str.chars (Unicode.utf8 cp ++ x) = Unicode.utf8 cp :: Str.chars x.
Proof.
  intros Hin%white_table. unfold Unicode.whitespace in Hin.
  repeat (apply elem_of_cons in Hin as [->|Hin]; [reflexivity|]).
  by apply elem_of_nil in Hin.
Qed.

Lemma isspace_white cp : white cp → Str.isspace (Unicode.utf8 cp) = true.
Proof.
  intros Hin%white_table. unfold Unicode.whitespace in Hin.
  repeat (apply elem_of_cons in Hin as [->|Hin]; [vm_compute; reflexivity|]).
  by apply elem_of_nil in Hin.
Qed.

Lemma isspace_inv c : Str.isspace c = true → ∃ cp, white cp ∧ c = Unicode.utf8 cp.
Proof.
  unfold Str.isspace, Str.among. rewrite existsb_exists.
  intros (x & (cp & -> & Hcp)%list_elem_of_In%list_elem_of_fmap & ->%String.eqb_eq).
  exists cp. split; [by apply white_table|done].
Qed.

Lemma white_space_join (cs : list string) :
  Forall (λ c, Str.isspace c = true) cs → white_space (Str.join cs).
Proof.
  induction 1 as [|c cs (cp & Hcp & ->)%isspace_inv _ IH]; [constructor|].
  change (white_space (Unicode.utf8 cp ++ Str.join cs)). by constructor.
Qed.

Lemma chars_white_space l x :
  white_space l →
  Forall (λ c, Str.isspace c = true) (Str.chars l) ∧
  Str.chars (l ++ x) = (Str.chars l ++ Str.chars x)%list.
Proof.
  induction 1 as [|cp s Hcp _ [IH1 IH2]]; [by split|].
  rewrite append_assoc, !chars_white by done. split.
  - constructor; [by apply isspace_white|done].
  - by rewrite IH2.
Qed.

(** The characters of a text, joined, are the text. *)
Lemma join_chars s : Str.join (Str.chars s) = s.
Proof.
  assert (∀ n s, (String.length s ≤ n)%nat → Str.join (Str.chars s) = s) as Hn.
  { clear s. induction n as [|n IH]; intros s Hs.
    - destruct s; [done|simpl in Hs; lia].
    - destruct s as [|b1 r1]; [done|]. simpl in Hs. simpl.
      destruct (Str.width b1) as [|[|[|[|[|k]]]]];
        destruct r1 as [|b2 [|b3 [|b4 r4]]]; simpl in Hs;
        change (Str.join (?c :: ?cs)) with (c ++ Str.join cs);
        rewrite ?IH by (simpl; lia); done. }
  by apply (Hn (String.length s)).
Qed.

(** Stripping a list at both ends. *)
Lemma lstrip_split {X : Type} (p : X → bool) (l : list X) :
  ∃ a, l = (a ++ Str.lstrip p l)%list ∧ Forall (λ x, p x = true) a.
Proof.
  induction l as [|x l (a & Hl & Ha)]; simpl; [by exists []|].
  destruct (p x) eqn:E; [|by exists []].
  exists (x :: a). split; [by rewrite <- app_comm_cons, <- Hl|by constructor].
Qed.

Lemma rstrip_split {X : Type} (p : X → bool) (l : list X) :
  ∃ b, l = (Str.rstrip p l ++ b)%list ∧ Forall (λ x, p x = true) b.
Proof.
  induction l as [|x l (b & Hl & Hb)]; simpl; [by exists []|].
  destruct (Str.rstrip p l) as [|y m] eqn:E.
  - simpl in Hl. subst l. destruct (p x) eqn:Ex.
    + exists (x :: b). split; [done|by constructor].
    + by exists b.
  - exists b. split; [|done]. by rewrite <- app_comm_cons, <- Hl.
Qed.

Lemma lstrip_Forall {X : Type} (p : X → bool) (a l : list X) :
  Forall (λ x, p x = true) a → Str.lstrip p (a ++ l)%list = Str.lstrip p l.
Proof. induction 1 as [|x a Hx _ IH]; [done|]. simpl. by rewrite Hx. Qed.

Lemma rstrip_Forall {X : Type} (p : X → bool) (b : list X) :
  Forall (λ x, p x = true) b → Str.rstrip p b = [].
Proof. induction 1 as [|x b Hx _ IH]; [done|]. simpl. by rewrite IH, Hx. Qed.

Lemma rstrip_app {X : Type} (p : X → bool) (m b : list X) :
  Forall (λ x, p x = true) b → Str.rstrip p (m ++ b)%list = Str.rstrip p m.
Proof.
  intros Hb. induction m as [|x m IH]; simpl; [by apply rstrip_Forall|].
  by rewrite IH.
Qed.

(** What [strip] leaves of a text, and what it has removed. *)
Lemma strip_split s :
  ∃ l r, s = l ++ Str.strip s ++ r ∧ white_space l ∧ white_space r.
Proof.
  destruct (lstrip_split Str.isspace (Str.chars s)) as (a & Ha & Hwa).
  destruct (rstrip_split Str.isspace (Str.lstrip Str.isspace (Str.chars s)))
    as (b & Hb & Hwb).
  exists (Str.join a), (Str.join b). split.
  - unfold Str.strip. rewrite <- !join_app, <- Hb, <- Ha. by rewrite join_chars.
  - split; by apply white_space_join.
Qed.

(** The texts [truthy] accepts. *)
Lemma lower_char_inv c d :
  Str.lower_char c = d →
  c = d ∨ ((97 <=? N_of_ascii d)%N = true ∧ c = ascii_of_N (N_of_ascii d - 32)).
Proof.
  unfold Str.lower_char.
  destruct ((65 <=? N_of_ascii c) && (N_of_ascii c <=? 90))%N eqn:E; [|by left].
  intros <-. right. apply andb_true_iff in E as [H1%N.leb_le H2%N.leb_le].
  rewrite N_ascii_embedding by lia. split; [apply N.leb_le; lia|].
  replace (N_of_ascii c + 32 - 32)%N with (N_of_ascii c) by lia.
  by rewrite ascii_N_embedding.
Qed.

Lemma truthy_spelling t : truthy t = true ↔ t ∈ truthy_spellings.
Proof.
  split.
  - unfold truthy. rewrite existsb_exists.
    intros (w & Hin%list_elem_of_In & Hw%String.eqb_eq).
    repeat (apply elem_of_cons in Hin as [->|Hin]);
      [| | |by apply elem_of_nil in Hin].
    + destruct t as [|c1 [|c2 [|c3 [|c4 [|c5 t]]]]]; try done.
      simpl in Hw. injection Hw as H1 H2 H3 H4.
      apply lower_char_inv in H1 as [->|[_ ->]], H2 as [->|[_ ->]],
        H3 as [->|[_ ->]], H4 as [->|[_ ->]];
        refine (bool_decide_unpack _ _); vm_compute; exact I.
    + destruct t as [|c1 [|c2 t]]; try done.
      simpl in Hw. injection Hw as H1.
      apply lower_char_inv in H1 as [->|[Hf _]]; [|by vm_compute in Hf].
      refine (bool_decide_unpack _ _); vm_compute; exact I.
    + destruct t as [|c1 [|c2 [|c3 [|c4 t]]]]; try done.
      simpl in Hw. injection Hw as H1 H2 H3.
      apply lower_char_inv in H1 as [->|[_ ->]], H2 as [->|[_ ->]],
        H3 as [->|[_ ->]];
        refine (bool_decide_unpack _ _); vm_compute; exact I.
  - unfold truthy_spellings. intros Hin.
    repeat (apply elem_of_cons in Hin as [->|Hin]; [reflexivity|]).
    by apply elem_of_nil in Hin.
Qed.

Lemma strip_spelling l t r :
  white_space l → white_space r → t ∈ truthy_spellings →
  Str.strip (l ++ t ++ r) = t.
Proof.
  intros [Hl1 Hl2]%(chars_white_space l (t ++ r))
         [Hr1 _]%(chars_white_space r EmptyString) Ht.
  unfold Str.strip. rewrite Hl2, lstrip_Forall by done.
  unfold truthy_spellings in Ht.
  repeat (apply elem_of_cons in Ht as [->|Ht];
    [match goal with
     | |- context [Str.chars (?t ++ r)] =>
         change (Str.lstrip Str.isspace (Str.chars (t ++ r)))
           with (Str.chars t ++ Str.chars r)%list
     end;
     rewrite rstrip_app by done; vm_compute; reflexivity|]).
  by apply elem_of_nil in Ht.
Qed.

Lemma truthy_strip s : truthy (Str.strip s) = true ↔ spelled_true s.
Proof.
  rewrite truthy_spelling. split.
  - intros Ht. destruct (strip_split s) as (l & r & Hs & Hl & Hr).
    by exists l, (Str.strip s), r.
  - intros (l & t & r & -> & Hl & Hr & Ht). by rewrite strip_spelling.
Qed.

(** C8: for a row whose diagnostic field is the text [s], the flag parsed
    is true exactly when [s] is one of the spellings of "true", "1" and
    "yes", in any mix of upper and lower case, with white space at most
    before and after it; and whatever text replaces [s], a row that parses
    still parses, with the other four values unchanged and the flag of the
    new text. *)
Theorem diagnostic_flag row s :
  row !! "Symptom Diagnostic" = Some (Some s) →
  (∀ p, parse_row row = Ok p → (diag p = true ↔ spelled_true s)) ∧
  (∀ p s', parse_row row = Ok p →
        ∃ p', parse_row (<["Symptom Diagnostic" := Some s']> row) = Ok p' ∧
              biz_id p' = biz_id p ∧ biz_name p' = biz_name p ∧
              sym_code p' = sym_code p ∧ sym_name p' = sym_name p ∧
              (diag p' = true ↔ spelled_true s')).
Proof.
  intros Hs. split.
  - intros p (s1 & s2 & s3 & s4 & s5 & _ & _ & _ & _ & _ & _ & _ & _ & H5 & ->)%parse_row_inv.
    rewrite Hs in H5. injection H5 as <-. apply truthy_strip.
  - intros p s' (s1 & s2 & s3 & s4 & s5 & H1 & Hz & H2 & E2 & H3 & E3 & H4 & E4 & _)%parse_row_inv.
    eexists. split.
    + apply (parse_row_fields _ s1 s2 s3 s4 s' (biz_id p)); try done.
      * by rewrite lookup_insert_ne.
      * by rewrite lookup_insert_ne.
      * by rewrite lookup_insert_ne.
      * by rewrite lookup_insert_ne.
      * by rewrite lookup_insert_eq.
    + simpl. repeat (split; [done|]). apply truthy_strip.
Qed.

Lemma diagnostic_flag_witness :
  ∃ p,
    parse_row
      (Csv.zip_row columns
         ["7"; "Acme"; "SYMPT0001"; "Fever"; Unicode.utf8 0xA0 ++ "YeS" ++ " "] ∅)
    = Ok p ∧ diag p = true ∧
    ∃ p',
      parse_row
        (<["Symptom Diagnostic" := Some "maybe"]>
           (Csv.zip_row columns
              ["7"; "Acme"; "SYMPT0001"; "Fever"; Unicode.utf8 0xA0 ++ "YeS" ++ " "] ∅))
      = Ok p' ∧ biz_id p' = 7 ∧ diag p' = false.
Proof.
  assert (parse_row
            (Csv.zip_row columns
               ["7"; "Acme"; "SYMPT0001"; "Fever";
                Unicode.utf8 0xA0 ++ "YeS" ++ " "] ∅)
          = Ok {| biz_id := 7; biz_name := "Acme"; sym_code := "SYMPT0001";
                  sym_name := "Fever"; diag := true |}) as Hp
    by (vm_compute; reflexivity).
  eexists. split; [exact Hp|].
  destruct (diagnostic_flag
              (Csv.zip_row columns
                 ["7"; "Acme"; "SYMPT0001"; "Fever";
                  Unicode.utf8 0xA0 ++ "YeS" ++ " "] ∅)
              (Unicode.utf8 0xA0 ++ "YeS" ++ " ")) as [Hflag Hany].
  - vm_compute. reflexivity.
  - split.
    + apply (proj2 (Hflag _ Hp)).
      exists (Unicode.utf8 0xA0), "YeS", " ". split; [reflexivity|].
      split; [|split].
      * rewrite <- (append_nil_r (Unicode.utf8 0xA0)).
        constructor; [unfold white; lia|constructor].
      * change " " with (Unicode.utf8 0x20 ++ EmptyString).
        constructor; [unfold white; lia|constructor].
      * refine (bool_decide_unpack _ _). vm_compute. exact I.
    + destruct (Hany _ "maybe" Hp) as (p' & Hp' & Hid & _ & _ & _ & Hd).
      exists p'. split; [exact Hp'|]. split; [exact Hid|].
      assert (parse_row
                (<["Symptom Diagnostic" := Some "maybe"]>
                   (Csv.zip_row columns
                      ["7"; "Acme"; "SYMPT0001"; "Fever";
                       Unicode.utf8 0xA0 ++ "YeS" ++ " "] ∅))
              = Ok {| biz_id := 7; biz_name := "Acme"; sym_code := "SYMPT0001";
                      sym_name := "Fever"; diag := false |}) as Hq
        by (vm_compute; reflexivity).
      rewrite Hp' in Hq. by injection Hq as ->.
Defined.

(** ** What an import leaves in the store *)

Lemma import_Raise engine_accepts utcnow db records e db' :
  import_business_symptoms engine_accepts utcnow db records = (Raise e, db') →
  db' = db.
Proof.
  rewrite import_unfold.
  destruct (for_each _ _ _) as [st|e1]; simpl; [|by intros [= _ <-]].
  destruct (committed _ _ _ _) as [db1|e2]; simpl; [done|by intros [= _ <-]].
Qed.

Lemma import_Ok_lookup engine_accepts utcnow db records out db' :
  import_business_symptoms engine_accepts utcnow db records = (Ok out, db') →
  ∃ ps, parse_rows (Csv.DictReader records) = Ok ps ∧
        (∀ b, businesses db' !! b = businesses_after db ps b) ∧
        (∀ c, symptoms db' !! c = symptoms_after db ps c) ∧
        (∀ k, business_symptoms db' !! k = links_after utcnow db ps k).
Proof.
  intros (ps & Hps & _ & Hc)%import_Ok. exists ps. split; [done|].
  by eapply commit_staged.
Qed.

Lemma key_of_batch {K A : Type} (f : parsed → K * A) (ps : list parsed) k :
  k ∈ (f <$> ps).*1 ↔ ∃ p, p ∈ ps ∧ (f p).1 = k.
Proof.
  rewrite list_elem_of_fmap. split.
  - intros (ka & -> & (p & -> & Hp)%list_elem_of_fmap). by exists p.
  - intros (p & Hp & <-). exists (f p). split; [done|].
    apply list_elem_of_fmap. by exists p.
Qed.

Lemma last_value_business ps k d :
  last_value k (link_of <$> ps) = Some d →
  is_Some (first_value k.1 (business_of <$> ps)) ∧
  is_Some (first_value k.2 (symptom_of <$> ps)).
Proof.
  intros (p & Hkd & Hp)%last_value_elem%list_elem_of_fmap.
  unfold link_of in Hkd. injection Hkd as -> ->.
  split; apply not_eq_None_Some; rewrite first_value_None; intros Hn; apply Hn;
    apply key_of_batch; by exists p.
Qed.

(** X1: an import keeps referential integrity, whether it succeeds or
    fails. *)
Theorem import_keeps_references engine_accepts utcnow db records :
  referential db →
  referential (import_business_symptoms engine_accepts utcnow db records).2.
Proof.
  intros Href.
  destruct (import_business_symptoms engine_accepts utcnow db records)
    as [[out|e] db'] eqn:E; simpl.
  - apply import_Ok_lookup in E as (ps & _ & Hb & Hs & Hl).
    intros k r. rewrite Hl, Hb, Hs.
    unfold links_after, businesses_after, symptoms_after.
    destruct (last_value k (link_of <$> ps)) as [d|] eqn:Ed.
    + intros _. destruct (last_value_business _ _ _ Ed) as [[bn ->] [sn ->]].
      by split; eexists.
    + intros [Hbn Hsn]%Href.
      destruct (first_value k.1 _), (first_value k.2 _); by split.
  - by rewrite (import_Raise _ _ _ _ _ _ E).
Qed.

Lemma import_keeps_references_witness :
  referential (import_business_symptoms accept_all (clock_at 9) db_one_link csv_two_names).2.
Proof.
  apply import_keeps_references. intros k r Hk.
  unfold db_one_link in Hk. simpl in Hk.
  apply lookup_singleton_Some in Hk as [<- _]. simpl.
  split; by rewrite lookup_singleton_eq.
Defined.

(** X2: no import removes a row: a business id, a symptom code or a link
    pair stored before the import is stored after it. *)
Theorem import_never_deletes engine_accepts utcnow db records :
  let db' := (import_business_symptoms engine_accepts utcnow db records).2 in
  (∀ b, is_Some (businesses db !! b) → is_Some (businesses db' !! b)) ∧
  (∀ c, is_Some (symptoms db !! c) → is_Some (symptoms db' !! c)) ∧
  (∀ k, is_Some (business_symptoms db !! k) → is_Some (business_symptoms db' !! k)).
Proof.
  simpl.
  destruct (import_business_symptoms engine_accepts utcnow db records)
    as [[out|e] db'] eqn:E; simpl.
  - apply import_Ok_lookup in E as (ps & _ & Hb & Hs & Hl). split; [|split].
    + intros b Hin. rewrite Hb. unfold businesses_after.
      by destruct (first_value b _).
    + intros c Hin. rewrite Hs. unfold symptoms_after.
      by destruct (first_value c _).
    + intros k [r Hr]. rewrite Hl. unfold links_after. rewrite Hr.
      by destruct (last_value k _).
  - by rewrite (import_Raise _ _ _ _ _ _ E).
Qed.

(** X3: an import that succeeds leaves alone what its batch does not name:
    the business of an id no row carries, the symptom of a code no row
    carries, and the link of a pair no row carries, time stamps included. *)
Theorem import_frame engine_accepts utcnow db records out db' ps :
  import_business_symptoms engine_accepts utcnow db records = (Ok out, db') →
  parse_rows (Csv.DictReader records) = Ok ps →
  (∀ b, (∀ p, p ∈ ps → biz_id p ≠ b) → businesses db' !! b = businesses db !! b) ∧
  (∀ c, (∀ p, p ∈ ps → sym_code p ≠ c) → symptoms db' !! c = symptoms db !! c) ∧
  (∀ k, (∀ p, p ∈ ps → (biz_id p, sym_code p) ≠ k) →
        business_symptoms db' !! k = business_symptoms db !! k).
Proof.
  intros (ps' & Hps & Hb & Hs & Hl)%import_Ok_lookup Hps'.
  rewrite Hps in Hps'. injection Hps' as ->. split; [|split].
  - intros b Hno. rewrite Hb. unfold businesses_after.
    replace (first_value b (business_of <$> ps)) with (@None string); [done|].
    symmetry. apply first_value_None. intros (p & Hp & Hk)%key_of_batch.
    by apply (Hno p).
  - intros c Hno. rewrite Hs. unfold symptoms_after.
    replace (first_value c (symptom_of <$> ps)) with (@None string); [done|].
    symmetry. apply first_value_None. intros (p & Hp & Hk)%key_of_batch.
    by apply (Hno p).
  - intros k Hno. rewrite Hl. unfold links_after.
    replace (last_value k (link_of <$> ps)) with (@None bool); [done|].
    symmetry. apply last_value_None. intros (p & Hp & Hk)%key_of_batch.
    by apply (Hno p).
Qed.

Lemma import_frame_witness :
  business_symptoms
    (import_business_symptoms accept_all (clock_at 100) db_one_link
       [columns; ["2"; "Beta"; "SYMPT0002"; "Cough"; "no"]]).2 !! (1, "SYMPT0001")
  = Some {| diagnostic := false; created_at := 5; updated_at := 7 |}.
Proof.
  pose proof (import_frame accept_all (clock_at 100) db_one_link
    [columns; ["2"; "Beta"; "SYMPT0002"; "Cough"; "no"]]) as T.
  edestruct T as (_ & _ & Hl).
  - vm_compute. reflexivity.
  - vm_compute. reflexivity.
  - simpl. rewrite Hl; [vm_compute; reflexivity|].
    intros p [->|Hp%elem_of_nil]%elem_of_cons; [|done]. simpl. congruence.
Defined.

(** X4: a link stored before an import is still stored after it with its
    [created_at]; it is either the same row, or its flag has changed and its
    [updated_at] is the reading of the clock taken for its update. *)
Theorem stored_link_after_import engine_accepts utcnow db records k r :
  business_symptoms db !! k = Some r →
  ∃ r',
    business_symptoms (import_business_symptoms engine_accepts utcnow db records).2
      !! k = Some r' ∧
    created_at r' = created_at r ∧
    (r' = r ∨
     (diagnostic r' ≠ diagnostic r ∧ updated_at r' = utcnow (updated_onupdate k))).
Proof.
  intros Hr.
  destruct (import_business_symptoms engine_accepts utcnow db records)
    as [[out|e] db'] eqn:E; simpl.
  - apply import_Ok_lookup in E as (ps & _ & _ & _ & Hl).
    rewrite Hl. unfold links_after. rewrite Hr.
    destruct (last_value k _) as [d|]; [|exists r; by auto].
    destruct (decide (d = diagnostic r)) as [->|Hne]; [exists r; by auto|].
    exists (Session.link_updated utcnow k d r). split; [done|]. split; [done|].
    right. by split.
  - rewrite (import_Raise _ _ _ _ _ _ E). exists r. by auto.
Qed.

Lemma stored_link_after_import_witness :
  ∃ r',
    business_symptoms
      (import_business_symptoms accept_all (clock_from 100) db_one_link csv_one_link).2
      !! (1, "SYMPT0001") = Some r' ∧
    created_at r' = 5 ∧
    (r' = {| diagnostic := false; created_at := 5; updated_at := 7 |} ∨
     (diagnostic r' ≠ false ∧ updated_at r' = 102)).
Proof.
  apply (stored_link_after_import accept_all (clock_from 100) db_one_link csv_one_link
           (1, "SYMPT0001") {| diagnostic := false; created_at := 5; updated_at := 7 |}).
  vm_compute. reflexivity.
Defined.

(** ** When an import succeeds *)

Lemma stage_once_pending_NoDup {K : Type} `{Countable K} {A R : Type}
    (tbl : gmap K R) (kas : list (K * A)) :
  NoDup (Table.pending (foldl (stage_once tbl) (∅, Table.fresh) kas).2).*1.
Proof.
  induction kas as [|ka kas IH] using rev_ind; simpl; [constructor|].
  rewrite foldl_app. simpl.
  destruct (stage_once_fresh tbl kas) as (Hl & Hs & _ & Hq).
  set (st := foldl (stage_once tbl) (∅, Table.fresh) kas) in *.
  unfold stage_once at 1.
  destruct (decide (ka.1 ∈ st.1)) as [Hin|Hnin]; [done|]. simpl.
  destruct (tbl !! ka.1) as [r|] eqn:E.
  - by rewrite (merge_present _ _ _ _ r E).
  - rewrite (merge_absent _ _ _ _ Hl E). simpl. rewrite fmap_app. simpl.
    apply NoDup_app. split; [done|]. split; [|apply NoDup_singleton].
    intros k Hk ->%list_elem_of_singleton. apply Hnin, Hs.
    apply list_elem_of_fmap in Hk as ([k0 a0] & Hk0 & [_ Hf]%Hq).
    simpl in Hk0. subst k0. apply dec_stable. intros Hn.
    apply first_value_None in Hn. congruence.
Qed.

Section accepting.
Context {K : Type} `{Countable K} {A R : Type} `{EqDecision A}.
Variable accepts : K → A → bool.
Variable references : K → bool.
Variable inserted : K → A → R.
Variable current : R → A.
Variable updated : K → A → R → R.
Hypothesis accepts_all : ∀ k a, accepts k a = true.

Lemma inserts_succeed (l : list (K * A)) (t : gmap K R) :
  (∀ ka, ka ∈ l → references ka.1 = true ∧ t !! ka.1 = None) →
  NoDup l.*1 →
  ∃ t', for_each (Table.exec_insert accepts references inserted) t l = Ok t'.
Proof.
  revert t. induction l as [|ka l IH]; intros t Hl Hnd; simpl; [by eexists|].
  destruct (Hl ka) as [Hr Hn]; [left|].
  assert (Table.exec_insert accepts references inserted t ka =
          Ok (<[ka.1 := inserted ka.1 ka.2]> t)) as ->.
  { unfold Table.exec_insert. by rewrite accepts_all, Hr, Hn. }
  simpl.
  apply NoDup_cons in Hnd as [Hka Hnd]. apply IH; [|done].
  intros ka' Hin. destruct (Hl ka') as [Hr' Hn']; [by right|]. split; [done|].
  rewrite lookup_insert_ne; [done|]. intros Heq. apply Hka.
  apply list_elem_of_fmap. by exists ka'.
Qed.

Lemma inserts_Ok_NoDup (l : list (K * A)) (t t' : gmap K R) :
  for_each (Table.exec_insert accepts references inserted) t l = Ok t' →
  NoDup l.*1.
Proof.
  revert t. induction l as [|ka l IH]; intros t; simpl; [constructor|].
  intros (t1 & H1 & H2)%bind_Ok.
  apply exec_insert_Ok in H1 as (_ & -> & _ & _).
  apply NoDup_cons. split; [|by eapply IH].
  intros Hk. apply (inserts_Ok _ _ _ _ _ _ H2) in Hk.
  by rewrite lookup_insert_eq in Hk.
Qed.

Lemma inserts_Raise_accepting (l : list (K * A)) (t : gmap K R) e :
  for_each (Table.exec_insert accepts references inserted) t l = Raise e →
  e = IntegrityError.
Proof.
  revert t. induction l as [|ka l IH]; intros t; simpl; [done|].
  destruct (Table.exec_insert accepts references inserted t ka) as [t1|e1] eqn:E;
    simpl.
  - apply IH.
  - intros [= <-]. unfold Table.exec_insert in E. rewrite accepts_all in E.
    simpl in E. destruct (references ka.1); simpl in E; [|by injection E].
    destruct (t !! ka.1); [by injection E|done].
Qed.

(** The flush of a table under an engine that accepts every value: it
    succeeds when the pending keys are distinct, and is rejected for the
    primary key otherwise. *)
Lemma flush_accepting staged (tbl : gmap K R) (ts : Table.session K A) :
  describes staged tbl ts →
  (∀ ka, ka ∈ Table.pending ts → references ka.1 = true) →
  (NoDup (Table.pending ts).*1 →
     ∃ tbl', outcome (Table.flush accepts references inserted current updated tbl ts) = Ok tbl') ∧
  (¬ NoDup (Table.pending ts).*1 →
     outcome (Table.flush accepts references inserted current updated tbl ts)
     = Raise IntegrityError).
Proof.
  intros (_ & _ & Hout) Href. rewrite flush_outcome.
  assert (Table.updates_ok accepts current tbl ts = true) as ->.
  { apply bool_decide_eq_true_2. intros k a _. unfold Table.update_ok.
    destruct (tbl !! k) as [r|]; [|done]. by destruct (decide (a = current r)). }
  split.
  - intros Hnd. apply inserts_succeed; [|done].
    intros [k a] Hka. split; [by apply Href|]. simpl.
    destruct (Hout _ _ Hka) as [Hn _]. by rewrite lookup_updated_table, Hn.
  - intros Hdup.
    destruct (for_each _ _ _) as [t'|e] eqn:E.
    + by apply inserts_Ok_NoDup in E.
    + by apply inserts_Raise_accepting in E as ->.
Qed.

End accepting.

(** X6: under an engine with no check of its own on column values, a batch
    whose rows all parse is imported, with a count of its rows, when no pair
    that the store lacks comes twice in the batch; otherwise the import
    fails with IntegrityError and the store is unchanged. *)
Theorem import_outcome engine_accepts utcnow db records ps :
  (∀ obj, engine_accepts obj = true) →
  parse_rows (Csv.DictReader records) = Ok ps →
  (NoDup (new_links db ps).*1 →
     ∃ db', import_business_symptoms engine_accepts utcnow db records =
            (Ok {| status := "import complete";
                   rows_processed := List.length ps |}, db')) ∧
  (¬ NoDup (new_links db ps).*1 →
     import_business_symptoms engine_accepts utcnow db records =
     (Raise IntegrityError, db)).
Proof.
  intros Hacc Hps. rewrite import_unfold.
  rewrite loop_parse, Hps. simpl.
  rewrite committed_eq.
  (* businesses *)
  pose proof (loop_businesses db loop_init ps) as Eb. simpl in Eb.
  pose proof (describes_stage_once (businesses db) (business_of <$> ps)) as Db.
  pose proof (stage_once_pending_NoDup (businesses db) (business_of <$> ps)) as Nb.
  rewrite <- Eb in Db, Nb. simpl in Db, Nb.
  destruct (flush_accepting (λ id name, engine_accepts (Business id name))
              (λ _, true) (λ _ name, name) (λ name, name) (λ _ name _, name)
              (λ _ _, Hacc _) _ _ _ Db (λ _ _, eq_refl)) as [Hbok _].
  destruct (Hbok Nb) as [b Hb]. rewrite Hb. simpl.
  (* symptoms *)
  pose proof (loop_symptoms db loop_init ps) as Es. simpl in Es.
  pose proof (describes_stage_once (symptoms db) (symptom_of <$> ps)) as Ds.
  pose proof (stage_once_pending_NoDup (symptoms db) (symptom_of <$> ps)) as Ns.
  rewrite <- Es in Ds, Ns. simpl in Ds, Ns.
  destruct (flush_accepting (λ code name, engine_accepts (Symptom code name))
              (λ _, true) (λ _ name, name) (λ name, name) (λ _ name _, name)
              (λ _ _, Hacc _) _ _ _ Ds (λ _ _, eq_refl)) as [Hsok _].
  destruct (Hsok Ns) as [c Hc]. rewrite Hc. simpl.
  (* links *)
  pose proof (describes_stage_all (business_symptoms db) (link_of <$> ps)) as Dl.
  destruct (stage_all_fresh (business_symptoms db) (link_of <$> ps)) as (_ & _ & Pl).
  change Table.fresh with (Session.s_business_symptoms (db_session loop_init))
    in Dl, Pl.
  rewrite <- (loop_links db loop_init ps) in Dl, Pl.
  fold (new_links db ps) in Pl.
  destruct (flush_accepting
              (λ k d, engine_accepts (BusinessSymptomLink k.1 k.2 d))
              (λ k, bool_decide (is_Some (b !! k.1)) && bool_decide (is_Some (c !! k.2)))
              (Session.link_inserted utcnow) diagnostic (Session.link_updated utcnow)
              (λ _ _, Hacc _) _ _ _ Dl) as [Hlok Hlbad].
  { intros [k d] Hkd. simpl. destruct Dl as (_ & _ & Hout).
    destruct (Hout _ _ Hkd) as [_ [d' Hd']].
    destruct (last_value_business _ _ _ Hd') as [[bn Hbn] [sn Hsn]].
    rewrite (flush_staged _ _ _ _ _ _ _ _ _ Db Hb k.1).
    rewrite (flush_staged _ _ _ _ _ _ _ _ _ Ds Hc k.2).
    unfold stored. rewrite Hbn, Hsn.
    apply andb_true_intro. split; apply bool_decide_eq_true_2.
    - by destruct (businesses db !! k.1).
    - by destruct (symptoms db !! k.2). }
  rewrite Pl in Hlok, Hlbad. split.
  - intros Hnd. destruct (Hlok Hnd) as [l Hl]. rewrite Hl. simpl.
    rewrite loop_row_count. simpl. by eexists.
  - intros Hdup. by rewrite (Hlbad Hdup).
Qed.

Lemma import_outcome_witness :
  (∃ db', import_business_symptoms accept_all (clock_at 0) empty_db csv_two_names =
          (Ok {| status := "import complete"; rows_processed := 2 |}, db')) ∧
  import_business_symptoms accept_all (clock_at 0) db_one_link
    [columns; ["3"; "Gamma"; "SYMPT0003"; "Rash"; "1"];
              ["3"; "Gamma"; "SYMPT0003"; "Rash"; "1"]]
  = (Raise IntegrityError, db_one_link).
Proof.
  split.
  - pose proof (import_outcome accept_all (clock_at 0) empty_db csv_two_names) as T.
    edestruct T as [Hok _]; [done| |].
    + vm_compute. reflexivity.
    + apply Hok. refine (bool_decide_unpack _ _). vm_compute. exact I.
  - pose proof (import_outcome accept_all (clock_at 0) db_one_link
      [columns; ["3"; "Gamma"; "SYMPT0003"; "Rash"; "1"];
                ["3"; "Gamma"; "SYMPT0003"; "Rash"; "1"]]) as T.
    edestruct T as [_ Hbad]; [done| |].
    + vm_compute. reflexivity.
    + apply Hbad. intros Hnd. pose proof (bool_decide_pack _ Hnd) as Hd.
      vm_compute in Hd. exact Hd.
Defined.

(** X7: under any engine and at any time, a batch whose rows all say what
    the store holds already (the stored names, and the stored flag of a
    stored link) is imported without a change to the store. *)
Theorem import_of_stored_data engine_accepts utcnow db records ps :
  parse_rows (Csv.DictReader records) = Ok ps →
  (∀ p, p ∈ ps → in_store db p) →
  import_business_symptoms engine_accepts utcnow db records =
  (Ok {| status := "import complete"; rows_processed := List.length ps |}, db).
Proof.
  intros Hps Hst. rewrite import_unfold.
  rewrite loop_parse, Hps. simpl. rewrite committed_eq.
  pose proof (loop_businesses db loop_init ps) as Eb. simpl in Eb.
  pose proof (describes_stage_once (businesses db) (business_of <$> ps)) as Db.
  rewrite <- Eb in Db. simpl in Db.
  rewrite (flush_again _ _ _ _ _ _ _ _ Db); simpl.
  2:{ intros b a (p & Hp & Hin)%first_value_elem%list_elem_of_fmap.
      unfold business_of in Hp. injection Hp as -> ->.
      destruct (Hst _ Hin) as (Hb & _). by exists (biz_name p). }
  pose proof (loop_symptoms db loop_init ps) as Es. simpl in Es.
  pose proof (describes_stage_once (symptoms db) (symptom_of <$> ps)) as Ds.
  rewrite <- Es in Ds. simpl in Ds.
  rewrite (flush_again _ _ _ _ _ _ _ _ Ds); simpl.
  2:{ intros c a (p & Hp & Hin)%first_value_elem%list_elem_of_fmap.
      unfold symptom_of in Hp. injection Hp as -> ->.
      destruct (Hst _ Hin) as (_ & Hs & _). by exists (sym_name p). }
  pose proof (describes_stage_all (business_symptoms db) (link_of <$> ps)) as Dl.
  change Table.fresh with (Session.s_business_symptoms (db_session loop_init)) in Dl.
  rewrite <- (loop_links db loop_init ps) in Dl.
  rewrite (flush_again _ _ _ _ _ _ _ _ Dl); simpl.
  2:{ intros k d (p & Hp & Hin)%last_value_elem%list_elem_of_fmap.
      unfold link_of in Hp. injection Hp as -> ->.
      destruct (Hst _ Hin) as (_ & _ & r & Hr & Hd). by exists r. }
  rewrite loop_row_count. simpl. by destruct db.
Qed.

Lemma import_of_stored_data_witness :
  import_business_symptoms (λ _, false) (clock_at 100) db_one_link
    [columns; [" 1"; "Acme "; "SYMPT0001"; "Fever"; "no"];
              ["1"; "Acme"; "SYMPT0001"; " Fever"; "0"]]
  = (Ok {| status := "import complete"; rows_processed := 2 |}, db_one_link).
Proof.
  pose proof (import_of_stored_data (λ _, false) (clock_at 100) db_one_link
    [columns; [" 1"; "Acme "; "SYMPT0001"; "Fever"; "no"];
              ["1"; "Acme"; "SYMPT0001"; " Fever"; "0"]]) as T.
  apply (T [ {| biz_id := 1; biz_name := "Acme"; sym_code := "SYMPT0001";
                sym_name := "Fever"; diag := false |};
             {| biz_id := 1; biz_name := "Acme"; sym_code := "SYMPT0001";
                sym_name := "Fever"; diag := false |} ]).
  - vm_compute. reflexivity.
  - intros p Hp.
    assert (p = {| biz_id := 1; biz_name := "Acme"; sym_code := "SYMPT0001";
                   sym_name := "Fever"; diag := false |}) as ->.
    { repeat (apply elem_of_cons in Hp as [->|Hp]; [reflexivity|]).
      by apply elem_of_nil in Hp. }
    split; [vm_compute; reflexivity|]. split; [vm_compute; reflexivity|].
    eexists. split; [vm_compute; reflexivity|reflexivity].
Defined.

(** ** More on the query *)

Lemma read_Ok db business_id diag outs :
  read_business_symptoms db business_id diag = Ok outs →
  ∃ results,
    results ≠ [] ∧ outs = to_out <$> results ∧ NoDup results ∧
    ∀ bs, bs ∈ results ↔
          bs ∈ query_join db ∧ selected business_id diag (j_key bs) (j_link bs).
Proof.
  destruct (read_results db business_id diag) as (results & Hin & Hnd & ->).
  destruct results as [|bs l]; [done|]. intros [= <-]. by exists (bs :: l).
Qed.

Lemma read_intro db business_id diag bs :
  bs ∈ query_join db → selected business_id diag (j_key bs) (j_link bs) →
  ∃ outs,
    read_business_symptoms db business_id diag = Ok outs ∧
    ∀ bs', bs' ∈ query_join db →
           selected business_id diag (j_key bs') (j_link bs') →
           to_out bs' ∈ outs.
Proof.
  intros Hj Hsel.
  destruct (read_results db business_id diag) as (results & Hin & Hnd & ->).
  assert (bs ∈ results) as Hbs by by apply Hin.
  destruct results as [|bs0 l]; [by apply elem_of_nil in Hbs|].
  eexists. split; [done|]. intros bs' Hj' Hsel'.
  apply list_elem_of_fmap. exists bs'. split; [done|]. by apply Hin.
Qed.

(** X9: a query succeeds exactly when some link that has its business and
    its symptom passes the filters; it never returns an empty list, and the
    only exception it raises is the 404. *)
Theorem query_succeeds_iff db business_id diag :
  ((∃ outs, read_business_symptoms db business_id diag = Ok outs) ↔
   ∃ k r bn sn,
     business_symptoms db !! k = Some r ∧
     businesses db !! k.1 = Some bn ∧ symptoms db !! k.2 = Some sn ∧
     selected business_id diag k r) ∧
  read_business_symptoms db business_id diag ≠ Ok [] ∧
  (∀ e, read_business_symptoms db business_id diag = Raise e →
        e = HTTPException 404 "No business-symptom data found").
Proof.
  split; [split|split].
  - intros (outs & (results & Hne & _ & _ & Hin)%read_Ok).
    destruct results as [|bs l]; [done|].
    destruct (proj1 (Hin bs)) as [Hj Hsel]; [left|].
    apply elem_of_query_join in Hj as (k & r & bn & sn & Hl & Hb & Hs & ->).
    by exists k, r, bn, sn.
  - intros (k & r & bn & sn & Hl & Hb & Hs & Hsel).
    destruct (read_intro db business_id diag
      {| j_key := k; j_link := r; j_business := bn; j_symptom := sn |})
      as (outs & Hok & _); [|done|by exists outs].
    apply elem_of_query_join. by exists k, r, bn, sn.
  - intros (results & Hne & Hout & _)%read_Ok. by destruct results.
  - intros e.
    destruct (read_results db business_id diag) as (results & _ & _ & ->).
    destruct results; [by intros [= <-]|done].
Qed.

(** X10: a row a query returns is also returned when the diagnostic filter
    is dropped, when the business filter is dropped, and when the filters are
    the row's own business id and flag. *)
Theorem query_filters_refine db business_id diag outs o :
  read_business_symptoms db business_id diag = Ok outs →
  o ∈ outs →
  (∃ outs1, read_business_symptoms db business_id None = Ok outs1 ∧ o ∈ outs1) ∧
  (∃ outs2, read_business_symptoms db None diag = Ok outs2 ∧ o ∈ outs2) ∧
  (∃ outs3,
     read_business_symptoms db
       (Some (BusinessSymptomOut.business_id o))
       (Some (BusinessSymptomOut.diagnostic o)) = Ok outs3 ∧
     o ∈ outs3).
Proof.
  intros (results & _ & -> & _ & Hin)%read_Ok
         (bs & -> & [Hj [Hb Hd]]%Hin)%list_elem_of_fmap.
  split; [|split].
  - destruct (read_intro db business_id None bs) as (outs1 & Hok & Hall);
      [done|by split|].
    exists outs1. split; [done|]. apply Hall; [done|by split].
  - destruct (read_intro db None diag bs) as (outs2 & Hok & Hall);
      [done|by split|].
    exists outs2. split; [done|]. apply Hall; [done|by split].
  - simpl.
    destruct (read_intro db (Some (j_key bs).1) (Some (diagnostic (j_link bs))) bs)
      as (outs3 & Hok & Hall); [done|split; by intros ? [= <-]|].
    exists outs3. split; [done|]. apply Hall; [done|].
    split; by intros ? [= <-].
Qed.

Lemma query_filters_refine_witness :
  ∃ outs1,
    read_business_symptoms
      (import_business_symptoms accept_all (clock_at 0) empty_db csv_two_names).2
      (Some 1) None = Ok outs1 ∧
    {| BusinessSymptomOut.business_id := 1;
       BusinessSymptomOut.business_name := "Acme";
       BusinessSymptomOut.symptom_code := "SYMPT0001";
       BusinessSymptomOut.symptom_name := "Fever";
       BusinessSymptomOut.diagnostic := true |} ∈ outs1.
Proof.
  pose proof (query_filters_refine
    (import_business_symptoms accept_all (clock_at 0) empty_db csv_two_names).2
    (Some 1) (Some true)) as T.
  edestruct T as (H1 & _ & _); [| |exact H1].
  - vm_compute. reflexivity.
  - left.
Defined.

Lemma fmap_omap_total {X Y Z : Type} (f : X → option Y) (g : Y → Z) (h : X → Z)
    (l : list X) :
  (∀ x, x ∈ l → ∃ y, f x = Some y ∧ g y = h x) →
  g <$> omap f l = h <$> l.
Proof.
  induction l as [|x l IH]; intros Hf; simpl; [done|].
  destruct (Hf x) as (y & -> & Hy); [left|]. simpl. rewrite Hy. f_equal.
  apply IH. intros x' Hx'. apply Hf. by right.
Qed.

(** X11: over a store with referential integrity, the query without filter
    returns the stored links, each once: the pairs and flags of the rows
    returned are, up to their order, those of the link table. *)
Theorem query_all_complete db outs :
  referential db →
  read_business_symptoms db None None = Ok outs →
  out_link <$> outs ≡ₚ stored_link <$> map_to_list (business_symptoms db).
Proof.
  intros Href (results & _ & -> & Hnd & Hin)%read_Ok.
  rewrite <- list_fmap_compose.
  rewrite <- (fmap_omap_total (join_link db) (out_link ∘ to_out) stored_link).
  - apply fmap_Permutation. fold (query_join db).
    apply NoDup_Permutation; [done|apply NoDup_query_join|].
    intros bs. rewrite Hin. unfold selected. naive_solver.
  - intros [k r] Hkr%elem_of_map_to_list. unfold join_link. simpl.
    destruct (Href _ _ Hkr) as [[bn ->] [sn ->]]. by eexists.
Qed.

Lemma query_all_complete_witness :
  ∃ outs,
    read_business_symptoms db_two_links None None = Ok outs ∧
    out_link <$> outs ≡ₚ [(1, "SYMPT0001", false); (2, "SYMPT0002", true)].
Proof.
  eexists. split; [vm_compute; reflexivity|].
  etransitivity.
  - apply (query_all_complete db_two_links).
    + change (map_Forall
                (λ k _, is_Some (businesses db_two_links !! k.1) ∧
                        is_Some (symptoms db_two_links !! k.2))
                (business_symptoms db_two_links)).
      refine (bool_decide_unpack _ _). vm_compute. exact I.
    + vm_compute. reflexivity.
  - refine (bool_decide_unpack _ _). vm_compute. exact I.
Defined.

(** X12: after an import that succeeds, the query filtered by the business
    id of a row of the batch and by the flag of the last row of its pair
    returns that pair, with the names of the first rows of the business and
    of the symptom. *)
Theorem imported_row_found engine_accepts utcnow db records out db' ps b c d bn sn :
  import_business_symptoms engine_accepts utcnow db records = (Ok out, db') →
  parse_rows (Csv.DictReader records) = Ok ps →
  last_value (b, c) (link_of <$> ps) = Some d →
  first_value b (business_of <$> ps) = Some bn →
  first_value c (symptom_of <$> ps) = Some sn →
  ∃ outs,
    read_business_symptoms db' (Some b) (Some d) = Ok outs ∧
    {| BusinessSymptomOut.business_id := b;
       BusinessSymptomOut.business_name := bn;
       BusinessSymptomOut.symptom_code := c;
       BusinessSymptomOut.symptom_name := sn;
       BusinessSymptomOut.diagnostic := d |} ∈ outs.
Proof.
  intros (ps' & Hps & Hb & Hs & Hl)%import_Ok_lookup Hps' Hd Hbn Hsn.
  rewrite Hps in Hps'. injection Hps' as ->.
  assert (∃ r, business_symptoms db' !! (b, c) = Some r ∧ diagnostic r = d)
    as (r & Hr & Hdr).
  { rewrite Hl. unfold links_after. rewrite Hd.
    destruct (business_symptoms db !! (b, c)) as [r0|]; [|by eexists].
    destruct (decide (d = diagnostic r0)) as [->|]; by eexists. }
  destruct (read_intro db' (Some b) (Some d)
    {| j_key := (b, c); j_link := r; j_business := bn; j_symptom := sn |})
    as (outs & Hok & Hall).
  - apply elem_of_query_join. exists (b, c), r, bn, sn. simpl.
    rewrite Hb, Hs. unfold businesses_after, symptoms_after.
    by rewrite Hbn, Hsn.
  - split; simpl; by intros ? [= <-].
  - exists outs. split; [done|].
    specialize (Hall {| j_key := (b, c); j_link := r; j_business := bn;
                        j_symptom := sn |}).
    unfold to_out in Hall. simpl in Hall. rewrite Hdr in Hall. apply Hall.
    + apply elem_of_query_join. exists (b, c), r, bn, sn. simpl.
      rewrite Hb, Hs. unfold businesses_after, symptoms_after.
      by rewrite Hbn, Hsn.
    + split; simpl; by intros ? [= <-].
Qed.

Lemma imported_row_found_witness :
  ∃ outs,
    read_business_symptoms
      (import_business_symptoms accept_all (clock_at 0) empty_db csv_two_names).2
      (Some 1) (Some false) = Ok outs ∧
    {| BusinessSymptomOut.business_id := 1;
       BusinessSymptomOut.business_name := "Acme";
       BusinessSymptomOut.symptom_code := "SYMPT0002";
       BusinessSymptomOut.symptom_name := "Cough";
       BusinessSymptomOut.diagnostic := false |} ∈ outs.
Proof.
  pose proof (imported_row_found accept_all (clock_at 0) empty_db csv_two_names) as T.
  eapply T with (b := 1) (c := "SYMPT0002").
  - vm_compute. reflexivity.
  - vm_compute. reflexivity.
  - vm_compute. reflexivity.
  - vm_compute. reflexivity.
  - vm_compute. reflexivity.
Defined.

(** ** The shape of the records *)

Lemma import_same_rows engine_accepts utcnow db records1 records2 :
  Csv.DictReader records1 = Csv.DictReader records2 →
  import_business_symptoms engine_accepts utcnow db records1 =
  import_business_symptoms engine_accepts utcnow db records2.
Proof. rewrite !import_unfold. by intros ->. Qed.

Lemma import_same_parse engine_accepts utcnow db records1 records2 :
  parse_rows (Csv.DictReader records1) = parse_rows (Csv.DictReader records2) →
  import_business_symptoms engine_accepts utcnow db records1 =
  import_business_symptoms engine_accepts utcnow db records2.
Proof. rewrite !import_unfold. rewrite !loop_parse. by intros ->. Qed.

Lemma data_records_fmap (g : list string → list string) h rest :
  (∀ r, Csv.blank (g r) = Csv.blank r) →
  Csv.data_records (h :: (g <$> rest)) = g <$> Csv.data_records (h :: rest).
Proof.
  intros Hg. unfold Csv.data_records. simpl.
  induction rest as [|r rest IH]; [done|].
  rewrite fmap_cons. simpl. rewrite Hg, IH. by destruct (Csv.blank r).
Qed.

Lemma zip_row_take fieldnames fields d :
  Csv.zip_row fieldnames (take (List.length fieldnames) fields) d =
  Csv.zip_row fieldnames fields d.
Proof.
  revert fields d. induction fieldnames as [|f fs IH]; intros fields d; [done|].
  destruct fields as [|v vs]; simpl; [done|]. apply IH.
Qed.

(** X13: the fields of a record beyond the header are ignored: cutting
    every data record to the length of a non-empty header does not change
    what the import returns or stores. *)
Theorem extra_fields_ignored engine_accepts utcnow db header rest :
  header ≠ [] →
  import_business_symptoms engine_accepts utcnow db
    (header :: (take (List.length header) <$> rest)) =
  import_business_symptoms engine_accepts utcnow db (header :: rest).
Proof.
  intros Hh. apply import_same_rows. unfold Csv.DictReader.
  rewrite data_records_fmap.
  - rewrite <- list_fmap_compose. apply list_fmap_ext.
    intros _ r _. simpl. apply zip_row_take.
  - intros r. destruct header as [|f fs]; [done|]. by destruct r.
Qed.

Lemma extra_fields_ignored_witness :
  import_business_symptoms accept_all (clock_at 0) empty_db
    [columns; ["1"; "Acme"; "SYMPT0001"; "Fever"; "true"]] =
  import_business_symptoms accept_all (clock_at 0) empty_db
    [columns; ["1"; "Acme"; "SYMPT0001"; "Fever"; "true"; "extra"; "more"]].
Proof.
  apply (extra_fields_ignored accept_all (clock_at 0) empty_db columns
           [["1"; "Acme"; "SYMPT0001"; "Fever"; "true"; "extra"; "more"]]).
  done.
Defined.

(** X14: under the header of the five columns, a data record with fewer
    than five fields makes the import fail on a row that does not parse, and
    nothing is stored. *)
Theorem short_record_aborts engine_accepts utcnow db rest r :
  r ∈ rest → r ≠ [] → (List.length r < 5)%nat →
  ∃ e, row_error e ∧
       import_business_symptoms engine_accepts utcnow db (columns :: rest) =
       (Raise e, db).
Proof.
  intros Hin Hne Hlen.
  assert (∃ e, parse_rows (Csv.DictReader (columns :: rest)) = Raise e) as [e He].
  { apply (parse_rows_bad_row _ (Csv.zip_row columns r ∅)).
    - unfold Csv.DictReader. apply list_elem_of_fmap. exists r. split; [done|].
      unfold Csv.data_records. simpl. apply list_elem_of_In, filter_In.
      split; [by apply list_elem_of_In|]. by destruct r.
    - intros p (s1 & s2 & s3 & s4 & s5 & _ & _ & _ & _ & _ & _ & _ & _ & H5 & _)%parse_row_inv.
      destruct r as [|a [|b [|c [|d [|e r]]]]]; simpl in Hlen; try lia;
        try done; vm_compute in H5; discriminate H5. }
  exists e. split; [by eapply parse_rows_Raise|].
  rewrite import_unfold. by rewrite loop_parse, He.
Qed.

Lemma short_record_aborts_witness :
  ∃ e, row_error e ∧
       import_business_symptoms accept_all (clock_at 0) db_one_link
         [columns; ["1"; "Acme"; "SYMPT0001"; "Fever"; "true"];
                   ["2"; "Beta"; "SYMPT0002"]] =
       (Raise e, db_one_link).
Proof.
  apply (short_record_aborts accept_all (clock_at 0) db_one_link
           [["1"; "Acme"; "SYMPT0001"; "Fever"; "true"];
            ["2"; "Beta"; "SYMPT0002"]] ["2"; "Beta"; "SYMPT0002"]).
  - right. left.
  - done.
  - simpl. lia.
Defined.

(** ** The first row that does not parse *)

Lemma parse_rows_first_bad rows1 row rows2 e :
  (∀ r, r ∈ rows1 → ∃ p, parse_row r = Ok p) →
  parse_row row = Raise e →
  parse_rows (rows1 ++ row :: rows2)%list = Raise e.
Proof.
  intros Hok Hbad. induction rows1 as [|r rows1 IH]; simpl.
  - by rewrite Hbad.
  - destruct (Hok r) as [p ->]; [left|]. simpl. rewrite IH; [done|].
    intros r' Hr'. apply Hok. by right.
Qed.

(** X16: the exception of an import whose rows do not all parse is the one
    of the first row that does not parse, whatever the rows after it hold,
    and nothing is stored. *)
Theorem first_bad_row_raises engine_accepts utcnow db records rows1 row rows2 e :
  Csv.DictReader records = (rows1 ++ row :: rows2)%list →
  (∀ r, r ∈ rows1 → ∃ p, parse_row r = Ok p) →
  parse_row row = Raise e →
  import_business_symptoms engine_accepts utcnow db records = (Raise e, db).
Proof.
  intros Hrows Hok Hbad. rewrite import_unfold.
  by rewrite loop_parse, Hrows, (parse_rows_first_bad _ _ _ _ Hok Hbad).
Qed.

Lemma first_bad_row_raises_witness :
  import_business_symptoms accept_all (clock_at 0) db_one_link
    [columns; ["1"; "Acme"; "SYMPT0001"; "Fever"; "true"];
              ["two"; "Beta"; "SYMPT0002"; "Cough"; "no"];
              ["3"]]
  = (Raise ValueError, db_one_link).
Proof.
  apply (first_bad_row_raises accept_all (clock_at 0) db_one_link _
           [Csv.zip_row columns ["1"; "Acme"; "SYMPT0001"; "Fever"; "true"] ∅]
           (Csv.zip_row columns ["two"; "Beta"; "SYMPT0002"; "Cough"; "no"] ∅)
           [Csv.zip_row columns ["3"] ∅]).
  - reflexivity.
  - intros r [->|Hr%elem_of_nil]%elem_of_cons; [|done].
    eexists. vm_compute. reflexivity.
  - vm_compute. reflexivity.
Defined.

(** ** The clock *)

(** X17: the clock only shows in the time stamps: an import that succeeds
    at one time succeeds at any other with the same response, the same
    businesses and symptoms, and the same flag for every link. *)
Theorem clock_only_stamps engine_accepts utcnow1 utcnow2 db records out db1 :
  import_business_symptoms engine_accepts utcnow1 db records = (Ok out, db1) →
  ∃ db2,
    import_business_symptoms engine_accepts utcnow2 db records = (Ok out, db2) ∧
    businesses db2 = businesses db1 ∧
    symptoms db2 = symptoms db1 ∧
    ∀ k, diagnostic <$> business_symptoms db2 !! k =
         diagnostic <$> business_symptoms db1 !! k.
Proof.
  intros E1.
  destruct (import_business_symptoms engine_accepts utcnow2 db records)
    as [[out2|e] db2] eqn:E2.
  - exists db2.
    pose proof E1 as (ps & Hps & -> & _)%import_Ok.
    pose proof E2 as (ps2 & Hps2 & -> & _)%import_Ok.
    rewrite Hps in Hps2. injection Hps2 as <-.
    apply import_Ok_lookup in E1 as (ps1 & Hp1 & Hb1 & Hs1 & Hl1).
    apply import_Ok_lookup in E2 as (ps2 & Hp2 & Hb2 & Hs2 & Hl2).
    rewrite Hps in Hp1, Hp2. injection Hp1 as <-. injection Hp2 as <-.
    split; [done|]. split; [|split].
    + apply map_eq. intros b. by rewrite Hb1, Hb2.
    + apply map_eq. intros c. by rewrite Hs1, Hs2.
    + intros k. rewrite Hl1, Hl2. unfold links_after.
      destruct (last_value k _) as [d|]; [|done].
      destruct (business_symptoms db !! k) as [r|]; [|done].
      by destruct (decide (d = diagnostic r)).
  - exfalso. revert E1 E2. rewrite !import_unfold. rewrite !loop_parse.
    destruct (parse_rows (Csv.DictReader records)) as [ps|e1]; simpl; [|done].
    destruct (committed engine_accepts utcnow2 _ db) as [d2|e2] eqn:Hc2;
      simpl; [done|].
    by rewrite (commit_same_outcome _ _ utcnow1 _ _ _ Hc2).
Qed.

Lemma clock_only_stamps_witness :
  ∃ db2,
    import_business_symptoms accept_all (clock_at 7) db_one_link csv_one_link =
    (Ok {| status := "import complete"; rows_processed := 1 |}, db2) ∧
    businesses db2 =
    businesses (import_business_symptoms accept_all (clock_at 100) db_one_link csv_one_link).2 ∧
    symptoms db2 =
    symptoms (import_business_symptoms accept_all (clock_at 100) db_one_link csv_one_link).2 ∧
    ∀ k, diagnostic <$> business_symptoms db2 !! k =
         diagnostic <$>
           business_symptoms
             (import_business_symptoms accept_all (clock_at 100) db_one_link csv_one_link).2
           !! k.
Proof.
  apply (clock_only_stamps accept_all (clock_at 100) (clock_at 7) db_one_link csv_one_link).
  vm_compute. reflexivity.
Defined.
